(** * seller.py: synchronising vendor inventory with the marketplace catalog

    A shallow embedding of [seller.py].  The string and list helpers
    ([price_conversion], [divide]) are plain functions.  Everything else runs
    in one state and exception monad over a [world]: the heap of list objects
    ([create_stocks] shortens the list it is handed, so lists of offer ids are
    passed by reference), the state of the remote services, the working
    directory, and the log of HTTP requests sent.  The loop of [get_offer_ids]
    has no bound in the source and takes a budget of iterations here. *)

From Stdlib Require Import Ascii String DecimalString DecimalPos DecimalZ.
From stdpp Require Import base numbers list strings gmap.

Local Open Scope string_scope.
Local Open Scope list_scope.
Local Open Scope nat_scope.

(** ** Python values, exceptions and builtins *)

Inductive exn :=
  | ValueError | TypeError | AttributeError
  | HTTPError | ReadTimeout | ConnectionError
  | BadZipFile | FileNotFoundError | XLRDError.

Inductive result (A : Type) :=
  | Ok (a : A)
  | Raise (e : exn).
Arguments Ok {A} a.
Arguments Raise {A} e.

(** A spreadsheet cell as [dict.get] hands it over: a [str], an [int], or
    [None] when the key is missing.  Floats are left out. *)
Inductive pyval :=
  | PStr (s : string)
  | PInt (z : Z)
  | PNone.

(** [str(v)]. *)
Definition py_str (v : pyval) : string :=
  match v with
  | PStr s => s
  | PInt z => NilZero.string_of_int (Z.to_int z)
  | PNone => "None"
  end.

Definition in_range (lo hi c : ascii) : bool :=
  (nat_of_ascii lo <=? nat_of_ascii c)%nat && (nat_of_ascii c <=? nat_of_ascii hi)%nat.

(** The characters [str.strip] and [int] treat as blanks, in the ASCII range:
    tab, line feed, vertical tab, form feed, carriage return, the four
    separators 0x1c-0x1f and the space. *)
Definition is_space (c : ascii) : bool :=
  let n := nat_of_ascii c in
  ((9 <=? n) && (n <=? 13) || (28 <=? n) && (n <=? 32))%nat.

Fixpoint lstrip (s : string) : string :=
  match s with
  | String c s' => if is_space c then lstrip s' else s
  | EmptyString => EmptyString
  end.

Fixpoint rstrip (s : string) : string :=
  match s with
  | String c s' =>
      match rstrip s' with
      | EmptyString => if is_space c then EmptyString else String c EmptyString
      | r => String c r
      end
  | EmptyString => EmptyString
  end.

Definition digit_value (c : ascii) : Z := Z.of_nat (nat_of_ascii c - 48).

(** The digits of an [int] literal, read left to right: [acc] is the value so
    far, [prev_digit] says whether the previous character was a digit (an
    underscore is accepted only between two digits). *)
Fixpoint int_digits (acc : Z) (prev_digit : bool) (s : string) : option Z :=
  match s with
  | EmptyString => if prev_digit then Some acc else None
  | String c s' =>
      if in_range "0" "9" c then int_digits (10 * acc + digit_value c) true s'
      else if Ascii.eqb c "_" then
        if prev_digit then
          match s' with
          | String d _ => if in_range "0" "9" d then int_digits acc false s' else None
          | EmptyString => None
          end
        else None
      else None
  end.

(** [int(s)] for a [str] in base 10: blanks stripped, an optional sign, then
    digits.  Only ASCII digits and blanks are recognised here; the interpreter's
    configurable limit on the number of digits is not modelled. *)
Definition int_of_str (s : string) : result Z :=
  let body := rstrip (lstrip s) in
  let '(neg, ds) :=
    match body with
    | String "-" r => (true, r)
    | String "+" r => (false, r)
    | _ => (false, body)
    end in
  match int_digits 0 false ds with
  | Some z => Ok (if neg then (- z)%Z else z)
  | None => Raise ValueError
  end.

(** [int(v)]. *)
Definition py_int (v : pyval) : result Z :=
  match v with
  | PStr s => int_of_str s
  | PInt z => Ok z
  | PNone => Raise TypeError
  end.

(** [x in l] on a list. *)
Definition py_in `{EqDecision A} (x : A) (l : list A) : bool :=
  bool_decide (x ∈ l).

(** [l.remove(x)]: drops the first element equal to [x]; [ValueError] when
    there is none. *)
Fixpoint list_remove `{EqDecision A} (x : A) (l : list A) : result (list A) :=
  match l with
  | [] => Raise ValueError
  | y :: l' =>
      if decide (x = y) then Ok l'
      else match list_remove x l' with
           | Ok r => Ok (y :: r)
           | Raise e => Raise e
           end
  end.

(** [s.split(sep)] for a separator of one character. *)
Fixpoint split (sep : ascii) (s : string) : list string :=
  match s with
  | EmptyString => [EmptyString]
  | String c s' =>
      if Ascii.eqb c sep then EmptyString :: split sep s'
      else match split sep s' with
           | piece :: pieces => String c piece :: pieces
           | [] => [String c EmptyString]
           end
  end.

(** [re.sub(cls, repl, s)] for a pattern [cls] that is one character class:
    every character in the class is replaced by [repl]. *)
Fixpoint re_sub (cls : ascii -> bool) (repl s : string) : string :=
  match s with
  | EmptyString => EmptyString
  | String c s' =>
      if cls c then repl +:+ re_sub cls repl s'
      else String c (re_sub cls repl s')
  end.

(** The class [[^0-9]]. *)
Definition not_0_9 (c : ascii) : bool := negb (in_range "0" "9" c).

(** [range(start, stop, step)] as the list of its values; [ValueError] for a
    zero step. *)
Fixpoint range_loop (fuel : nat) (i stop step : Z) : list Z :=
  match fuel with
  | O => []
  | S fuel' =>
      if (if (0 <? step)%Z then (i <? stop)%Z else (stop <? i)%Z)
      then i :: range_loop fuel' (i + step)%Z stop step
      else []
  end.

Definition range (start stop step : Z) : result (list Z) :=
  if (step =? 0)%Z then Raise ValueError
  else Ok (range_loop (Z.to_nat (Z.abs (stop - start))) start stop step).

(** [l[i:j]] for [0 <= i <= j]; a slice is a new list. *)
Definition slice {A} (l : list A) (i j : Z) : list A :=
  take (Z.to_nat (j - i)) (drop (Z.to_nat i) l).

(** ** Price formatting and chunking *)

(** [price_conversion]: [re.sub("[^0-9]", "", price.split(".")[0])]. *)
Definition price_conversion (price : string) : string :=
  re_sub not_0_9 "" (hd "" (split "." price)).

(** [divide] is a generator; its values are collected here, as every caller
    does with [list(divide(...))]. *)
Definition divide {A} (lst : list A) (n : Z) : result (list (list A)) :=
  match range 0 (Z.of_nat (length lst)) n with
  | Ok starts => Ok (map (fun i => slice lst i (i + n)) starts)
  | Raise e => Raise e
  end.

(** The chunks [divide] yields from index [i] on, for a positive size [k]. *)
Definition chunks_from {A} (lst : list A) (k fuel i : nat) : list (list A) :=
  map (fun i => slice lst i (i + Z.of_nat k))
      (range_loop fuel (Z.of_nat i) (Z.of_nat (length lst)) (Z.of_nat k)).

(** The two readings that the description of [price_conversion] uses. *)
Fixpoint before_first_dot (s : string) : string :=
  match s with
  | EmptyString => EmptyString
  | String c s' => if Ascii.eqb c "." then EmptyString else String c (before_first_dot s')
  end.

Definition decimal_digits : list ascii :=
  ["0"; "1"; "2"; "3"; "4"; "5"; "6"; "7"; "8"; "9"]%char.

Fixpoint keep_digits (s : string) : string :=
  match s with
  | EmptyString => EmptyString
  | String c s' =>
      if bool_decide (c ∈ decimal_digits) then String c (keep_digits s') else keep_digits s'
  end.

(** ** Data model *)

(** A row of the vendor spreadsheet, a dict read through three keys: [kod] is
    [watch.get("Код")], [kolichestvo] is [watch.get("Количество")], [tsena] is
    [watch.get("Цена")].  The first two go through [str] in the code and may
    be numbers; the price is text, as [price_conversion(price: str)] says. *)
Record watch := {
  kod : pyval;
  kolichestvo : pyval;
  tsena : string;
}.

Module StockUpdate.
Record t := { offer_id : string; stock : Z }.
End StockUpdate.

Module PriceUpdate.
Record t := {
  auto_action_enabled : string;
  currency_code : string;
  offer_id : string;
  old_price : string;
  price : string;
}.
End PriceUpdate.

Module Product.
Record t := { offer_id : string }.
End Product.

(** The ["result"] object of the product list endpoint. *)
Module Page.
Record t := { items : list Product.t; total : Z; last_id : string }.
End Page.

(** The [if]/[elif]/[else] of [create_stocks] that turns the quantity cell of a
    matched row into a stock:
    [count = str(q)]; [">10"] gives 100, ["1"] gives 0, else [int(q)]. *)
Definition stock_of_quantity (quantity : pyval) : result Z :=
  let count := py_str quantity in
  if String.eqb count ">10" then Ok 100%Z
  else if String.eqb count "1" then Ok 0%Z
  else py_int quantity.

(** Identity of a list object on the heap. *)
Definition loc := nat.

(** The HTTP requests the program sends. *)
Inductive request :=
  | ProductList (last_id : string) (limit : Z) (client_id seller_token : string)
  | ImportPrices (prices : list PriceUpdate.t) (client_id seller_token : string)
  | ImportStocks (stocks : list StockUpdate.t) (client_id seller_token : string)
  | GetOstatki.

(** What lies outside the program: the marketplace and the vendor site, each
    answering a request from its current state with a body or an exception
    ([raise_for_status] included), and the spreadsheet reader.  The body of the
    download is [None] when it is not a zip archive, else the archive's
    members (name, contents). *)
Record services := {
  remote : Type;
  product_list_endpoint : remote -> string -> Z -> string -> string -> remote * result Page.t;
  import_prices_endpoint :
    remote -> list PriceUpdate.t -> string -> string -> remote * result string;
  import_stocks_endpoint :
    remote -> list StockUpdate.t -> string -> string -> remote * result string;
  ostatki_endpoint : remote -> remote * result (option (list (string * string)));
  read_excel : string -> result (list watch);
}.

(** The working directory after [archive.extractall(".")]. *)
Definition extracted (members : list (string * string)) (fs : gmap string string)
    : gmap string string :=
  foldl (fun fs m => <[m.1 := m.2]> fs) fs members.

Section Program.
Context {sv : services}.

Record world := {
  heap : gmap loc (list string);
  remote_state : remote sv;
  files : gmap string string;
  sent : list request;
}.

Definition set_heap (h : gmap loc (list string)) (w : world) : world :=
  {| heap := h; remote_state := remote_state w; files := files w; sent := sent w |}.

Definition set_files (f : gmap string string) (w : world) : world :=
  {| heap := heap w; remote_state := remote_state w; files := f; sent := sent w |}.

(** One HTTP exchange: the request is logged and the remote side moves on. *)
Definition exchange (rq : request) (st : remote sv) (w : world) : world :=
  {| heap := heap w; remote_state := st; files := files w; sent := sent w ++ [rq] |}.

(** Computations: from a world to a new world with a value or a raised
    exception; [None] when the step budget of a loop ran out before the
    computation finished. *)
Definition M (A : Type) : Type := world -> option (world * result A).

#[export] Instance M_ret : MRet M := fun A a w => Some (w, Ok a).

#[export] Instance M_bind : MBind M := fun A B f m w =>
  match m w with
  | Some (w', Ok a) => f a w'
  | Some (w', Raise e) => Some (w', Raise e)
  | None => None
  end.

Definition raise {A} (e : exn) : M A := fun w => Some (w, Raise e).

Definition lift {A} (r : result A) : M A := fun w => Some (w, r).

Definition out_of_steps {A} : M A := fun _ => None.

(** [try: body except Exception: handler]. *)
Definition try_except {A} (body : M A) (handler : exn -> M A) : M A := fun w =>
  match body w with
  | Some (w', Raise e) => handler e w'
  | r => r
  end.

(** The list an identifier refers to; a new list object; [l.remove(x)] on the
    object itself. *)
Definition read (r : loc) : M (list string) := fun w => Some (w, Ok (heap w !!! r)).

Definition alloc (l : list string) : M loc := fun w =>
  let r := fresh (dom (heap w)) in
  Some (set_heap (<[r := l]> (heap w)) w, Ok r).

Definition remove_in_place (r : loc) (x : string) : M unit := fun w =>
  match list_remove x (heap w !!! r) with
  | Ok l' => Some (set_heap (<[r := l']> (heap w)) w, Ok tt)
  | Raise e => Some (w, Raise e)
  end.

(** ** Catalog client *)

Definition get_product_list (last_id client_id seller_token : string) : M Page.t := fun w =>
  let '(st, response) :=
    product_list_endpoint sv (remote_state w) last_id 1000 client_id seller_token in
  Some (exchange (ProductList last_id 1000 client_id seller_token) st w, response).

(** The [while True] loop of [get_offer_ids], with a budget of iterations. *)
Fixpoint get_offer_ids_loop (steps : nat) (client_id seller_token : string)
    (last_id : string) (product_list : list Product.t) : M (list Product.t) :=
  match steps with
  | O => out_of_steps
  | S steps' =>
      some_prod ← get_product_list last_id client_id seller_token;
      let product_list := product_list ++ Page.items some_prod in
      let total := Page.total some_prod in
      let last_id := Page.last_id some_prod in
      if (total =? Z.of_nat (length product_list))%Z then mret product_list
      else get_offer_ids_loop steps' client_id seller_token last_id product_list
  end.

Definition get_offer_ids (steps : nat) (client_id seller_token : string) : M loc :=
  product_list ← get_offer_ids_loop steps client_id seller_token "" [];
  alloc (map Product.offer_id product_list).

Definition update_price (prices : list PriceUpdate.t) (client_id seller_token : string)
    : M string := fun w =>
  let '(st, response) :=
    import_prices_endpoint sv (remote_state w) prices client_id seller_token in
  Some (exchange (ImportPrices prices client_id seller_token) st w, response).

Definition update_stocks (stocks : list StockUpdate.t) (client_id seller_token : string)
    : M string := fun w =>
  let '(st, response) :=
    import_stocks_endpoint sv (remote_state w) stocks client_id seller_token in
  Some (exchange (ImportStocks stocks client_id seller_token) st w, response).

(** ** Inventory fetcher *)

(** [archive.extractall(".")]. *)
Definition extractall (members : list (string * string)) : M unit := fun w =>
  Some (set_files (extracted members (files w)) w, Ok tt).

(** [pd.read_excel(io=name, ...).to_dict(orient="records")]. *)
Definition read_excel_records (name : string) : M (list watch) := fun w =>
  match files w !! name with
  | Some contents => Some (w, read_excel sv contents)
  | None => Some (w, Raise FileNotFoundError)
  end.

(** [os.remove(name)]. *)
Definition os_remove (name : string) : M unit := fun w =>
  match files w !! name with
  | Some _ => Some (set_files (delete name (files w)) w, Ok tt)
  | None => Some (w, Raise FileNotFoundError)
  end.

Definition session_get_ostatki : M (option (list (string * string))) := fun w =>
  let '(st, response) := ostatki_endpoint sv (remote_state w) in
  Some (exchange GetOstatki st w, response).

Definition download_stock : M (list watch) :=
  content ← session_get_ostatki;
  match content with
  | None => raise BadZipFile
  | Some archive =>
      extractall archive;;
      let excel_file := "ostatki.xls" in
      watch_remnants ← read_excel_records excel_file;
      os_remove "ostatki.xls";;
      mret watch_remnants
  end.

(** ** Delta builder *)

(** The first loop of [create_stocks]; [stocks] is the list built so far. *)
Fixpoint create_stocks_loop (watch_remnants : list watch) (offer_ids : loc)
    (stocks : list StockUpdate.t) : M (list StockUpdate.t) :=
  match watch_remnants with
  | [] => mret stocks
  | watch :: rest =>
      ids ← read offer_ids;
      if py_in (py_str (kod watch)) ids then
        stock ← lift (stock_of_quantity (kolichestvo watch));
        let stocks :=
          stocks ++ [ {| StockUpdate.offer_id := py_str (kod watch);
                         StockUpdate.stock := stock |} ] in
        remove_in_place offer_ids (py_str (kod watch));;
        create_stocks_loop rest offer_ids stocks
      else create_stocks_loop rest offer_ids stocks
  end.

Definition create_stocks (watch_remnants : list watch) (offer_ids : loc)
    : M (list StockUpdate.t) :=
  stocks ← create_stocks_loop watch_remnants offer_ids [];
  ids ← read offer_ids;
  mret (stocks ++
        map (fun offer_id => {| StockUpdate.offer_id := offer_id; StockUpdate.stock := 0 |}) ids).

Fixpoint create_prices_loop (watch_remnants : list watch) (offer_ids : loc)
    (prices : list PriceUpdate.t) : M (list PriceUpdate.t) :=
  match watch_remnants with
  | [] => mret prices
  | watch :: rest =>
      ids ← read offer_ids;
      if py_in (py_str (kod watch)) ids then
        let price :=
          {| PriceUpdate.auto_action_enabled := "UNKNOWN";
             PriceUpdate.currency_code := "RUB";
             PriceUpdate.offer_id := py_str (kod watch);
             PriceUpdate.old_price := "0";
             PriceUpdate.price := price_conversion (tsena watch) |} in
        create_prices_loop rest offer_ids (prices ++ [price])
      else create_prices_loop rest offer_ids prices
  end.

Definition create_prices (watch_remnants : list watch) (offer_ids : loc)
    : M (list PriceUpdate.t) :=
  create_prices_loop watch_remnants offer_ids [].

(** ** Orchestration *)

(** [for x in xs: f(x)]. *)
Fixpoint for_each {A B} (xs : list A) (f : A -> M B) : M unit :=
  match xs with
  | [] => mret tt
  | x :: xs' => f x;; for_each xs' f
  end.

(** The coroutine bodies of [upload_prices] and [upload_stocks]. *)
Definition upload_prices (steps : nat) (watch_remnants : list watch)
    (client_id seller_token : string) : M (list PriceUpdate.t) :=
  offer_ids ← get_offer_ids steps client_id seller_token;
  prices ← create_prices watch_remnants offer_ids;
  batches ← lift (divide prices 1000);
  for_each batches (fun some_price => update_price some_price client_id seller_token);;
  mret prices.

Definition upload_stocks (steps : nat) (watch_remnants : list watch)
    (client_id seller_token : string) : M (list StockUpdate.t * list StockUpdate.t) :=
  offer_ids ← get_offer_ids steps client_id seller_token;
  stocks ← create_stocks watch_remnants offer_ids;
  batches ← lift (divide stocks 100);
  for_each batches (fun some_stock => update_stocks some_stock client_id seller_token);;
  let not_empty := filter (fun stock => StockUpdate.stock stock ≠ 0%Z) stocks in
  mret (not_empty, stocks).

(** The [try] block of [main]; it hands back its locals [stocks] and [prices]
    so that they can be spoken about. *)
Definition main_try (steps : nat) (client_id seller_token : string)
    : M (list StockUpdate.t * list PriceUpdate.t) :=
  offer_ids ← get_offer_ids steps client_id seller_token;
  watch_remnants ← download_stock;
  stocks ← create_stocks watch_remnants offer_ids;
  batches ← lift (divide stocks 100);
  for_each batches (fun some_stock => update_stocks some_stock client_id seller_token);;
  prices ← create_prices watch_remnants offer_ids;
  batches ← lift (divide prices 900);
  for_each batches (fun some_price => update_price some_price client_id seller_token);;
  mret (stocks, prices).

(** [main], given the two credentials read from the environment; each
    [except] clause only prints. *)
Definition main (steps : nat) (client_id seller_token : string) : M unit :=
  try_except (main_try steps client_id seller_token;; mret tt) (fun _ => mret tt).

End Program.

Arguments world : clear implicits.
Arguments M : clear implicits.

(** ** Functions used to state and prove the properties *)

(** What the first loop of [create_stocks] does, as a function of the list
    [ids] that [offer_ids] refers to: the list left in the object, and the
    stocks built or the exception raised. *)
Fixpoint stocks_pass (watch_remnants : list watch) (ids : list string)
    (stocks : list StockUpdate.t) : list string * result (list StockUpdate.t) :=
  match watch_remnants with
  | [] => (ids, Ok stocks)
  | watch :: rest =>
      if py_in (py_str (kod watch)) ids then
        match stock_of_quantity (kolichestvo watch) with
        | Ok stock =>
            match list_remove (py_str (kod watch)) ids with
            | Ok ids' =>
                stocks_pass rest ids'
                  (stocks ++ [ {| StockUpdate.offer_id := py_str (kod watch);
                                  StockUpdate.stock := stock |} ])
            | Raise e => (ids, Raise e)
            end
        | Raise e => (ids, Raise e)
        end
      else stocks_pass rest ids stocks
  end.

(** The entry a matched row contributes. *)
Definition entry_of (watch : watch) (e : StockUpdate.t) : Prop :=
  StockUpdate.offer_id e = py_str (kod watch) ∧
  stock_of_quantity (kolichestvo watch) = Ok (StockUpdate.stock e).

Definition zero_stock (offer_id : string) : StockUpdate.t :=
  {| StockUpdate.offer_id := offer_id; StockUpdate.stock := 0 |}.

Definition price_of (watch : watch) : PriceUpdate.t :=
  {| PriceUpdate.auto_action_enabled := "UNKNOWN";
     PriceUpdate.currency_code := "RUB";
     PriceUpdate.offer_id := py_str (kod watch);
     PriceUpdate.old_price := "0";
     PriceUpdate.price := price_conversion (tsena watch) |}.

(** The pairs (row, offer id) in which the row's code is the offer id, by
    position in the two lists. *)
Definition matched_pairs (watch_remnants : list watch) (ids : list string)
    : list (watch * string) :=
  filter (fun p => py_str (kod p.1) = p.2) (list_prod watch_remnants ids).




(** The pagination of [get_offer_ids] without its exit test: the reported
    total, the cursor and the products accumulated after [n + 1] pages. *)
Fixpoint after_pages {sv : services} (n : nat) (client_id seller_token : string)
    (last_id : string) (product_list : list Product.t)
    : M sv (Z * string * list Product.t) :=
  some_prod ← get_product_list last_id client_id seller_token;
  let product_list := product_list ++ Page.items some_prod in
  match n with
  | O => mret (Page.total some_prod, Page.last_id some_prod, product_list)
  | S n' => after_pages n' client_id seller_token (Page.last_id some_prod) product_list
  end.

(** The requests of a log that push stocks, and those that push prices. *)
Definition stock_batches (log : list request) : list (list StockUpdate.t) :=
  omap (fun rq => match rq with ImportStocks b _ _ => Some b | _ => None end) log.

Definition price_batches (log : list request) : list (list PriceUpdate.t) :=
  omap (fun rq => match rq with ImportPrices b _ _ => Some b | _ => None end) log.

(** From world [w] to world [w'] the log grew by requests whose stock batches
    are [sb] and whose price batches are [pb], in the order sent. *)
Definition pushed {sv : services} (w w' : world sv)
    (sb : list (list StockUpdate.t)) (pb : list (list PriceUpdate.t)) : Prop :=
  ∃ new, sent w' = sent w ++ new ∧ stock_batches new = sb ∧ price_batches new = pb.

(** The list requests [get_offer_ids] sends for the cursors [cursors]. *)
Definition list_requests (client_id seller_token : string) (cursors : list string)
    : list request :=
  map (fun cursor => ProductList cursor 1000 client_id seller_token) cursors.

(** ** Sample surroundings *)

(** A marketplace holding the offers [ids] and serving them [page_size] at a
    time (its state is the number of offers served so far), which accepts or
    rejects every import; a vendor archive with the one sheet ["ostatki.xls"],
    which the reader turns into [rows]. *)
Definition sample_services (ids : list string) (page_size : nat)
    (accept : bool) (rows : result (list watch)) : services :=
  {| remote := nat;
     product_list_endpoint := fun served last_id limit client_id seller_token =>
       ((served + page_size)%nat,
        Ok {| Page.items :=
                map (fun id => {| Product.offer_id := id |}) (take page_size (drop served ids));
              Page.total := Z.of_nat (length ids);
              Page.last_id := "cursor" |});
     import_prices_endpoint := fun served prices client_id seller_token =>
       (served, if accept then Ok "{}" else Raise HTTPError);
     import_stocks_endpoint := fun served stocks client_id seller_token =>
       (served, if accept then Ok "{}" else Raise HTTPError);
     ostatki_endpoint := fun served => (served, Ok (Some [("ostatki.xls", "sheet")]));
     read_excel := fun contents => rows |}.

Definition start {ids page_size accept rows} (h : gmap loc (list string))
    : world (sample_services ids page_size accept rows) :=
  @Build_world (sample_services ids page_size accept rows) h 0%nat ∅ [].

(** Offer ids ["0"], ["1"], ... *)
Definition numbered_ids (n : nat) : list string :=
  map (fun i => NilZero.string_of_uint (Nat.to_uint i)) (seq 0 n).

Definition row (code quantity price : string) : watch :=
  {| kod := PStr code; kolichestvo := PStr quantity; tsena := price |}.

(** A marketplace of four offers served two at a time whose second answer is
    an HTTP error. *)
Definition failing_second_page : services :=
  {| remote := nat;
     product_list_endpoint := fun calls last_id limit client_id seller_token =>
       (S calls,
        if decide (calls = 1) then Raise HTTPError
        else Ok {| Page.items := [ {| Product.offer_id := "A" |};
                                   {| Product.offer_id := "B" |} ];
                   Page.total := 4;
                   Page.last_id := "cursor" |});
     import_prices_endpoint := fun calls prices client_id seller_token => (calls, Ok "{}");
     import_stocks_endpoint := fun calls stocks client_id seller_token => (calls, Ok "{}");
     ostatki_endpoint := fun calls => (calls, Raise ConnectionError);
     read_excel := fun contents => Raise XLRDError |}.

Definition second_page_fails : world failing_second_page :=
  @Build_world failing_second_page ∅ 0 ∅ [].



(** A marketplace that rejects every import. *)
Definition rejecting : world (sample_services ["A"; "B"] 1000 false (Ok [])) :=
  start ∅.

(** A world in which only the heap matters. *)
Definition offline : services := sample_services [] 1000 true (Ok []).

Definition with_heap (h : gmap loc (list string)) : world offline := start h.

(** Six offers served two at a time. *)
Definition six_offers : world (sample_services (numbered_ids 6) 2 true (Ok [])) :=
  start ∅.

(** 3000 offers served 1000 at a time. *)
Definition three_full_pages
    : world (sample_services (numbered_ids 3000) 1000 true (Ok [])) :=
  start ∅.

(** An archive whose sheet the reader rejects. *)
Definition unreadable_sheet : world (sample_services [] 1000 true (Raise XLRDError)) :=
  start ∅.

(** 250 offers, none of them in the vendor's sheet. *)
Definition many_offers : world (sample_services (numbered_ids 250) 1000 true (Ok [])) :=
  start ∅.

(** A marketplace that reports one offer but serves none. *)
Definition empty_pages : world (sample_services ["A"] 0 true (Ok [])) :=
  start ∅.

(** Two offers, one of them in the vendor's sheet. *)
Definition two_offers
    : world (sample_services ["A"; "B"] 1000 true (Ok [row "A" ">10" "1'234.00 x"])) :=
  start ∅.

(** * Properties *)

(** ** [price_conversion] *)

Lemma in_range_decimal_digits c :
  in_range "0" "9" c = bool_decide (c ∈ decimal_digits).
Proof. destruct c as [[] [] [] [] [] [] [] []]; vm_compute; reflexivity. Qed.

Lemma split_not_nil sep s : split sep s ≠ [].
Proof.
  destruct s as [|c s]; simpl; [done|].
  destruct (Ascii.eqb c sep); [done|].
  by destruct (split sep s).
Qed.

Lemma split_first_piece s : hd "" (split "." s) = before_first_dot s.
Proof.
  induction s as [|c s IH]; simpl; [done|].
  destruct (Ascii.eqb c "."); [done|].
  destruct (split "." s) as [|piece pieces] eqn:E.
  - by apply split_not_nil in E.
  - simpl in *. by rewrite IH.
Qed.

Lemma re_sub_not_0_9 s : re_sub not_0_9 "" s = keep_digits s.
Proof.
  induction s as [|c s IH]; simpl; [done|].
  rewrite IH. unfold not_0_9. rewrite in_range_decimal_digits.
  by destruct (bool_decide (c ∈ decimal_digits)).
Qed.

(** C4. For every string, [price_conversion] keeps the digits 0-9 of the part
    before the first ["."] and drops every other character; the two sample
    prices come out as "5990" and "100". *)
Theorem price_conversion_digits_before_dot :
  (∀ s, price_conversion s = keep_digits (before_first_dot s)) ∧
  price_conversion "5'990.00 руб." = "5990" ∧
  price_conversion "100.00" = "100".
Proof.
  split; [|split; reflexivity].
  intros s. unfold price_conversion.
  by rewrite re_sub_not_0_9, split_first_piece.
Qed.

(** ** [divide] *)

Section Divide.
Context {A : Type} (lst : list A) (k : nat).
Hypothesis k_pos : 1 ≤ k.

Local Abbreviation chunks_from := (chunks_from lst k).

Lemma slice_take_drop (i : nat) :
  slice lst (Z.of_nat i) (Z.of_nat i + Z.of_nat k) = take k (drop i lst).
Proof. unfold slice. f_equal; [lia|]. by rewrite Nat2Z.id. Qed.

Lemma chunks_from_step fuel i :
  i < length lst →
  chunks_from (S fuel) i = take k (drop i lst) :: chunks_from fuel (i + k).
Proof.
  intros Hi. unfold chunks_from. simpl.
  replace (0 <? Z.of_nat k)%Z with true by (symmetry; apply Z.ltb_lt; lia).
  replace (Z.of_nat i <? Z.of_nat (length lst))%Z with true
    by (symmetry; apply Z.ltb_lt; lia).
  simpl. rewrite slice_take_drop. do 3 f_equal. lia.
Qed.

Lemma chunks_from_end fuel i : length lst ≤ i → chunks_from fuel i = [].
Proof.
  intros Hi. unfold chunks_from. destruct fuel as [|fuel]; simpl; [done|].
  replace (0 <? Z.of_nat k)%Z with true by (symmetry; apply Z.ltb_lt; lia).
  by replace (Z.of_nat i <? Z.of_nat (length lst))%Z with false
    by (symmetry; apply Z.ltb_ge; lia).
Qed.

Lemma chunks_from_spec fuel : ∀ i,
  length lst - i ≤ fuel →
  concat (chunks_from fuel i) = drop i lst ∧
  Forall (fun c => length c ≤ k ∧ c ≠ []) (chunks_from fuel i) ∧
  (∀ j c, chunks_from fuel i !! j = Some c →
          S j < length (chunks_from fuel i) → length c = k).
Proof.
  induction fuel as [|fuel IH]; intros i Hfuel.
  - rewrite chunks_from_end by lia. rewrite drop_ge by lia.
    repeat split; [constructor | intros j c Hj; by rewrite lookup_nil in Hj].
  - destruct (decide (i < length lst)) as [Hi|Hi].
    + rewrite chunks_from_step by done.
      destruct (IH (i + k)) as (Hcat & Hall & Hfull); [lia|].
      split; [|split].
      * simpl. rewrite Hcat, <- drop_drop. apply take_drop.
      * constructor; [|done]. split; [rewrite length_take; lia|].
        intros Hnil. apply (f_equal length) in Hnil.
        rewrite length_take, length_drop in Hnil. simpl in Hnil. lia.
      * intros [|j] c Hj Hlen; simpl in *.
        -- injection Hj as <-.
           destruct (chunks_from fuel (i + k)) as [|c' cs] eqn:E; simpl in *; [lia|].
           assert (drop (i + k) lst ≠ []) as Hrest.
           { rewrite <- Hcat. apply Forall_cons in Hall as [[_ Hc'] _].
             simpl. by destruct c'. }
           rewrite length_take, length_drop.
           destruct (decide (length lst ≤ i + k)) as [Hle|Hgt]; [|lia].
           by rewrite drop_ge in Hrest.
        -- apply (Hfull j c Hj). lia.
    + rewrite chunks_from_end by lia. rewrite drop_ge by lia.
      repeat split; [constructor | intros j c Hj; by rewrite lookup_nil in Hj].
Qed.

Lemma divide_chunks_from :
  divide lst (Z.of_nat k) = Ok (chunks_from (length lst) 0).
Proof.
  unfold divide, range.
  replace (Z.of_nat k =? 0)%Z with false by (symmetry; apply Z.eqb_neq; lia).
  unfold chunks_from. do 3 f_equal. lia.
Qed.
End Divide.

Lemma divide_positive {A} (lst : list A) (n : Z) :
  (1 ≤ n)%Z →
  ∃ chunks,
    divide lst n = Ok chunks ∧
    Forall (fun c => (Z.of_nat (length c) ≤ n)%Z) chunks ∧
    concat chunks = lst ∧
    (∀ j c, chunks !! j = Some c → S j < length chunks → Z.of_nat (length c) = n).
Proof.
  intros Hn.
  assert (n = Z.of_nat (Z.to_nat n)) as Hk by lia.
  assert (1 ≤ Z.to_nat n) as Hpos by lia.
  rewrite Hk. set (k := Z.to_nat n) in *.
  destruct (chunks_from_spec lst k Hpos (length lst) 0) as (Hcat & Hall & Hfull); [lia|].
  eexists. split; [apply divide_chunks_from; done|].
  split; [|split].
  - eapply Forall_impl; [exact Hall|]. simpl. intros c [Hc _]. lia.
  - exact Hcat.
  - intros j c Hj Hlen. f_equal. by apply (Hfull j c).
Qed.

Lemma divide_nil {A} (n : Z) : (1 ≤ n)%Z → divide (@nil A) n = Ok [].
Proof.
  intros Hn. replace n with (Z.of_nat (Z.to_nat n)) by lia.
  rewrite (divide_chunks_from [] (Z.to_nat n)) by lia. reflexivity.
Qed.

(** C5. For a size [n] of at least 1, [divide lst n] yields chunks of length at
    most [n] whose concatenation is [lst]; every chunk but the last has length
    exactly [n]; the empty list yields no chunk; and [1,2,3,4,5] by 2 yields
    [[1,2],[3,4],[5]]. *)
Theorem divide_chunks {A} (lst : list A) (n : Z) :
  (1 ≤ n)%Z →
  ∃ chunks,
    divide lst n = Ok chunks ∧
    Forall (fun c => (Z.of_nat (length c) ≤ n)%Z) chunks ∧
    concat chunks = lst ∧
    (∀ j c, chunks !! j = Some c → S j < length chunks → Z.of_nat (length c) = n) ∧
    divide (@nil A) n = Ok [] ∧
    divide [1; 2; 3; 4; 5]%Z 2 = Ok [[1; 2]; [3; 4]; [5]]%Z.
Proof.
  intros Hn.
  destruct (divide_positive lst n Hn) as (chunks & Hdiv & Hall & Hcat & Hfull).
  exists chunks. repeat split; try done. by apply divide_nil.
Qed.

Lemma divide_chunks_witness :
  ∃ chunks,
    divide [1; 2; 3; 4; 5; 6; 7]%Z 3 = Ok chunks ∧
    Forall (fun c => (Z.of_nat (length c) ≤ 3)%Z) chunks ∧
    concat chunks = [1; 2; 3; 4; 5; 6; 7]%Z ∧
    (∀ j c, chunks !! j = Some c → S j < length chunks → Z.of_nat (length c) = 3%Z) ∧
    divide (@nil Z) 3 = Ok [] ∧
    divide [1; 2; 3; 4; 5]%Z 2 = Ok [[1; 2]; [3; 4]; [5]]%Z.
Proof. apply (divide_chunks [1; 2; 3; 4; 5; 6; 7]%Z 3). lia. Defined.

(** ** Running computations *)

Section Running.
Context {sv : services}.
Implicit Types w : world sv.

Lemma bind_ok {A B} (m : M sv A) (f : A → M sv B) w w1 a :
  m w = Some (w1, Ok a) → (m ≫= f) w = f a w1.
Proof. intros H. unfold mbind, M_bind. by rewrite H. Qed.

Lemma bind_raise {A B} (m : M sv A) (f : A → M sv B) w w1 e :
  m w = Some (w1, Raise e) → (m ≫= f) w = Some (w1, Raise e).
Proof. intros H. unfold mbind, M_bind. by rewrite H. Qed.

Lemma bind_inv {A B} (m : M sv A) (f : A → M sv B) w w' r :
  (m ≫= f) w = Some (w', r) →
  (∃ w1 a, m w = Some (w1, Ok a) ∧ f a w1 = Some (w', r)) ∨
  (∃ e, m w = Some (w', Raise e) ∧ r = Raise e).
Proof.
  unfold mbind, M_bind. destruct (m w) as [[w1 [a|e]]|]; intros H.
  - left. eauto.
  - right. injection H as <- <-. eauto.
  - done.
Qed.

Lemma set_heap_id w ids l : heap w !! l = Some ids → set_heap (<[l := ids]> (heap w)) w = w.
Proof. intros H. rewrite insert_id by done. by destruct w. Qed.

Lemma read_run w l ids : heap w !! l = Some ids → read l w = Some (w, Ok ids).
Proof. intros H. unfold read. by rewrite (lookup_total_correct _ _ _ H). Qed.

Lemma create_stocks_loop_run watch_remnants : ∀ l stocks w ids,
  heap w !! l = Some ids →
  create_stocks_loop watch_remnants l stocks w =
  Some (set_heap (<[l := (stocks_pass watch_remnants ids stocks).1]> (heap w)) w,
        (stocks_pass watch_remnants ids stocks).2).
Proof.
  induction watch_remnants as [|watch rest IH]; intros l stocks w ids Hl; simpl.
  - by rewrite set_heap_id.
  - rewrite (bind_ok _ _ _ _ _ (read_run _ _ _ Hl)).
    destruct (py_in (py_str (kod watch)) ids); [|by apply IH].
    destruct (stock_of_quantity (kolichestvo watch)) as [stock|e] eqn:Hstock.
    + unfold mbind at 1, M_bind at 1, lift at 1.
      unfold mbind at 1, M_bind at 1, remove_in_place.
      rewrite (lookup_total_correct _ _ _ Hl).
      destruct (list_remove (py_str (kod watch)) ids) as [ids'|e]; simpl.
      * rewrite (IH _ _ _ ids') by (simpl; apply lookup_insert_eq).
        simpl. by rewrite insert_insert_eq.
      * by rewrite set_heap_id.
    + unfold mbind, M_bind, lift. simpl. by rewrite set_heap_id.
Qed.

Lemma create_stocks_run watch_remnants l w ids :
  heap w !! l = Some ids →
  create_stocks watch_remnants l w =
  Some (set_heap (<[l := (stocks_pass watch_remnants ids []).1]> (heap w)) w,
        match (stocks_pass watch_remnants ids []).2 with
        | Ok stocks => Ok (stocks ++ map zero_stock (stocks_pass watch_remnants ids []).1)
        | Raise e => Raise e
        end).
Proof.
  intros Hl. unfold create_stocks.
  destruct (stocks_pass watch_remnants ids []) as [ids' [stocks|e]] eqn:Hpass.
  - erewrite bind_ok; [|rewrite (create_stocks_loop_run _ _ _ _ _ Hl), Hpass; done].
    erewrite bind_ok; [done|]. apply read_run. simpl. apply lookup_insert_eq.
  - erewrite bind_raise; [done|].
    by rewrite (create_stocks_loop_run _ _ _ _ _ Hl), Hpass.
Qed.

Lemma create_prices_loop_run watch_remnants : ∀ l prices w,
  create_prices_loop watch_remnants l prices w =
  Some (w, Ok (prices ++
               map price_of (filter (fun watch => py_str (kod watch) ∈ heap w !!! l)
                                    watch_remnants))).
Proof.
  induction watch_remnants as [|watch rest IH]; intros l prices w; simpl.
  - by rewrite app_nil_r.
  - unfold mbind at 1, M_bind at 1, read at 1, py_in.
    rewrite filter_cons.
    destruct (decide (py_str (kod watch) ∈ heap w !!! l)) as [Hin|Hin].
    + rewrite bool_decide_eq_true_2 by done. rewrite IH. by rewrite <- app_assoc.
    + rewrite bool_decide_eq_false_2 by done. by rewrite IH.
Qed.

Lemma create_prices_run watch_remnants l w :
  create_prices watch_remnants l w =
  Some (w, Ok (map price_of (filter (fun watch => py_str (kod watch) ∈ heap w !!! l)
                                    watch_remnants))).
Proof. unfold create_prices. by rewrite create_prices_loop_run. Qed.

End Running.

(** ** The first loop of [create_stocks] as a function *)

Section StocksPass.
Implicit Types (ids : list string) (stocks : list StockUpdate.t).


Lemma list_remove_perm (x : string) ids : ∀ ids',
  list_remove x ids = Ok ids' → ids ≡ₚ x :: ids'.
Proof.
  induction ids as [|y ids IH]; intros ids' H; simpl in H; [done|].
  destruct (decide (x = y)) as [->|Hne]; [by injection H as <-|].
  destruct (list_remove x ids) as [r|] eqn:E; [|done].
  injection H as <-. rewrite (IH r eq_refl). apply Permutation_swap.
Qed.

Lemma list_remove_subset (x y : string) ids ids' :
  list_remove x ids = Ok ids' → y ∈ ids' → y ∈ ids.
Proof. intros H Hy. rewrite (list_remove_perm _ _ _ H). by right. Qed.

Lemma list_remove_other (x y : string) ids ids' :
  list_remove x ids = Ok ids' → y ≠ x → y ∈ ids → y ∈ ids'.
Proof.
  intros H Hne Hy. rewrite (list_remove_perm _ _ _ H) in Hy.
  by apply elem_of_cons in Hy as [?|?].
Qed.

Lemma list_remove_NoDup (x : string) ids ids' :
  NoDup ids → list_remove x ids = Ok ids' → NoDup ids' ∧ x ∉ ids'.
Proof.
  intros Hnd H. rewrite (list_remove_perm _ _ _ H) in Hnd.
  by apply NoDup_cons in Hnd as [? ?].
Qed.

Lemma stocks_pass_subset watch_remnants : ∀ ids stocks y,
  y ∈ (stocks_pass watch_remnants ids stocks).1 → y ∈ ids.
Proof.
  induction watch_remnants as [|watch rest IH]; intros ids stocks y; simpl; [done|].
  destruct (py_in _ ids); [|by apply IH].
  destruct (stock_of_quantity _); [|done].
  destruct (list_remove _ ids) as [ids1|] eqn:E; [|done].
  intros Hy. eapply list_remove_subset; [exact E|]. by eapply IH.
Qed.

Lemma stocks_pass_acc watch_remnants : ∀ ids stocks ids' st,
  stocks_pass watch_remnants ids stocks = (ids', Ok st) →
  ∃ new,
    st = stocks ++ new ∧
    map StockUpdate.offer_id new ++ ids' ≡ₚ ids ∧
    Forall (fun e => ∃ watch, watch ∈ watch_remnants ∧ entry_of watch e) new.
Proof.
  induction watch_remnants as [|watch rest IH]; intros ids stocks ids' st; simpl.
  - intros [= <- <-]. exists []. by rewrite app_nil_r.
  - destruct (py_in _ ids).
    + destruct (stock_of_quantity _) as [stock|] eqn:Hstock; [|done].
      destruct (list_remove _ ids) as [ids1|] eqn:E; [|done].
      intros H. destruct (IH _ _ _ _ H) as (new & -> & Hperm & Hall).
      eexists (_ :: new). split; [by rewrite <- app_assoc|]. split.
      * simpl. rewrite Hperm. symmetry. by apply list_remove_perm.
      * constructor.
        -- exists watch. split; [by left|]. by split.
        -- eapply Forall_impl; [exact Hall|]. simpl.
           intros e (watch' & Hin & He). exists watch'. split; [by right|done].
    + intros H. destruct (IH _ _ _ _ H) as (new & -> & Hperm & Hall).
      exists new. split; [done|]. split; [done|].
      eapply Forall_impl; [exact Hall|]. simpl.
      intros e (watch' & Hin & He). exists watch'. split; [by right|done].
Qed.


(** With pairwise-distinct ids, no code of a row is left in the list. *)
Lemma stocks_pass_consumed watch_remnants : ∀ ids stocks st,
  NoDup ids →
  (stocks_pass watch_remnants ids stocks).2 = Ok st →
  ∀ watch, watch ∈ watch_remnants →
           py_str (kod watch) ∉ (stocks_pass watch_remnants ids stocks).1.
Proof.
  induction watch_remnants as [|watch rest IH]; intros ids stocks st Hnd; simpl.
  - intros _ watch Hin. by apply elem_of_nil in Hin.
  - unfold py_in. case_bool_decide as Hin.
    + destruct (stock_of_quantity _) as [stock|]; [|done].
      destruct (list_remove _ ids) as [ids1|] eqn:E; [|done].
      destruct (list_remove_NoDup _ _ _ Hnd E) as [Hnd1 Hout].
      intros Hok watch' Hin'. apply elem_of_cons in Hin' as [->|Hin'].
      * intros Hleft. apply Hout. by eapply stocks_pass_subset.
      * by eapply IH.
    + intros Hok watch' Hin'. apply elem_of_cons in Hin' as [->|Hin'].
      * intros Hleft. apply Hin. by eapply stocks_pass_subset.
      * by eapply IH.
Qed.

(** The first row that carries a code of the list is matched. *)
Lemma stocks_pass_first before : ∀ watch after ids stocks ids' st,
  stocks_pass (before ++ watch :: after) ids stocks = (ids', Ok st) →
  py_str (kod watch) ∈ ids →
  (∀ watch', watch' ∈ before → py_str (kod watch') ≠ py_str (kod watch)) →
  ∃ e, entry_of watch e ∧ e ∈ st.
Proof.
  induction before as [|first before IH]; intros watch after ids stocks ids' st; simpl.
  - intros H Hin _. unfold py_in in H. rewrite bool_decide_eq_true_2 in H by done.
    destruct (stock_of_quantity _) as [stock|] eqn:Hstock; [|done].
    destruct (list_remove _ ids) as [ids1|] eqn:E; [|done].
    destruct (stocks_pass_acc _ _ _ _ _ H) as (new & -> & _).
    exists {| StockUpdate.offer_id := py_str (kod watch); StockUpdate.stock := stock |}.
    split; [by split|].
    rewrite !elem_of_app, list_elem_of_singleton. auto.
  - intros H Hin Hfirst. destruct (py_in _ ids).
    + destruct (stock_of_quantity _) as [stock|]; [|done].
      destruct (list_remove _ ids) as [ids1|] eqn:E; [|done].
      eapply IH; [exact H| |intros ? ?; apply Hfirst; by right].
      eapply list_remove_other; [exact E| |done].
      intros Heq. eapply Hfirst; [by left|done].
    + eapply IH; [exact H|done|intros ? ?; apply Hfirst; by right].
Qed.

End StocksPass.

(** ** [create_stocks] *)






(** C2. The list [create_stocks] shortens is the caller's own object: after
    the call with the ids ["A", "B"] and one row of code "A", the caller's list
    holds only "B"; and whenever [create_stocks] returns and some row carries
    one of the ids, the caller's list is shorter after the call than before. *)
Theorem create_stocks_consumes_callers_list :
  (∃ w',
     create_stocks [row "A" "5" "10.00"] 0 (with_heap {[ 0 := ["A"; "B"] ]})
     = Some (w', Ok [ {| StockUpdate.offer_id := "A"; StockUpdate.stock := 5 |};
                      {| StockUpdate.offer_id := "B"; StockUpdate.stock := 0 |} ]) ∧
     heap (with_heap {[ 0 := ["A"; "B"] ]}) !! 0 = Some ["A"; "B"] ∧
     heap w' !! 0 = Some ["B"]) ∧
  (∀ sv (watch_remnants : list watch) (offer_ids : loc) (w w' : world sv) O stocks,
     heap w !! offer_ids = Some O →
     create_stocks watch_remnants offer_ids w = Some (w', Ok stocks) →
     (∃ watch, watch ∈ watch_remnants ∧ py_str (kod watch) ∈ O) →
     ∃ O', heap w' !! offer_ids = Some O' ∧ length O' < length O).
Proof.
  split; [eexists; split; [reflexivity|]; split; reflexivity|].
  intros sv watch_remnants offer_ids w w' O stocks Hl Hcs (watch & Hin & Hcode).
  rewrite (create_stocks_run _ _ _ _ Hl) in Hcs.
  destruct (stocks_pass watch_remnants O []) as [ids' [st|e]] eqn:Hpass; [|done].
  simpl in Hcs. injection Hcs as <- _.
  exists ids'. split; [simpl; apply lookup_insert_eq|].
  destruct (stocks_pass_acc _ _ _ _ _ Hpass) as (new & -> & Hperm & _).
  rewrite <- Hperm, length_app, length_map.
  assert (∃ before first after,
            watch_remnants = before ++ first :: after ∧ py_str (kod first) ∈ O ∧
            ∀ watch', watch' ∈ before → py_str (kod watch') ≠ py_str (kod first))
    as (before & first & after & -> & Hfirst & Hbefore).
  { clear Hpass. induction watch_remnants as [|x rest IH]; [by apply elem_of_nil in Hin|].
    destruct (decide (py_str (kod x) ∈ O)) as [Hx|Hx].
    - exists [], x, rest. split; [done|]. split; [done|].
      intros ? H. by apply elem_of_nil in H.
    - apply elem_of_cons in Hin as [->|Hin]; [done|].
      destruct (IH Hin) as (before & first & after & -> & Hfirst & Hbefore).
      exists (x :: before), first, after. split; [done|]. split; [done|].
      intros watch' [->|H]%elem_of_cons; [congruence|by apply Hbefore]. }
  destruct (stocks_pass_first _ _ _ _ _ _ _ Hpass Hfirst Hbefore) as (e & _ & He).
  destruct new; [by apply elem_of_nil in He|]. simpl. lia.
Qed.

(** ** Quantity texts *)










(** ** [create_prices] *)

Lemma matched_pairs_row (first : watch) (ids : list string) :
  py_str (kod first) ∈ ids →
  1 ≤ length (filter (fun p : watch * string => py_str (kod p.1) = p.2)
                     (map (pair first) ids)).
Proof.
  induction ids as [|id ids IH]; intros Hin; [by apply elem_of_nil in Hin|].
  simpl. rewrite filter_cons. simpl.
  destruct (decide (py_str (kod first) = id)); simpl; [lia|].
  apply elem_of_cons in Hin as [?|Hin]; [done|]. by apply IH.
Qed.

Lemma matched_rows_le_pairs (watch_remnants : list watch) (ids : list string) :
  length (filter (fun watch => py_str (kod watch) ∈ ids) watch_remnants)
  ≤ length (matched_pairs watch_remnants ids).
Proof.
  unfold matched_pairs.
  induction watch_remnants as [|watch rest IH]; simpl; [done|].
  rewrite filter_app, length_app, filter_cons.
  destruct (decide (py_str (kod watch) ∈ ids)) as [Hin|Hin]; simpl.
  - apply (Nat.add_le_mono 1); [by apply matched_pairs_row|exact IH].
  - etrans; [exact IH|apply Nat.le_add_l].
Qed.

(** C7. [create_prices] always returns and leaves the world as it was; it
    yields no more entries than there are matched (row, offer id) pairs; every
    entry comes from a row whose code is its [offer_id] and is among the offer
    ids, carries that row's converted price, and has [old_price] "0",
    [currency_code] "RUB" and [auto_action_enabled] "UNKNOWN". *)
Theorem create_prices_entries {sv} (watch_remnants : list watch) (offer_ids : loc)
    (w : world sv) :
  ∃ prices,
    create_prices watch_remnants offer_ids w = Some (w, Ok prices) ∧
    length prices ≤ length (matched_pairs watch_remnants (heap w !!! offer_ids)) ∧
    ∀ p, p ∈ prices →
      (∃ watch, watch ∈ watch_remnants ∧
                PriceUpdate.offer_id p = py_str (kod watch) ∧
                PriceUpdate.offer_id p ∈ heap w !!! offer_ids ∧
                PriceUpdate.price p = price_conversion (tsena watch)) ∧
      PriceUpdate.old_price p = "0" ∧
      PriceUpdate.currency_code p = "RUB" ∧
      PriceUpdate.auto_action_enabled p = "UNKNOWN".
Proof.
  eexists. split; [apply create_prices_run|]. split.
  - rewrite length_map. apply matched_rows_le_pairs.
  - intros p Hp. apply list_elem_of_fmap in Hp as (watch & -> & Hwatch).
    apply list_elem_of_filter in Hwatch as [Hcode Hin].
    split; [|done]. exists watch. done.
Qed.

(** ** Pagination in [get_offer_ids] *)

Section Pagination.
Context {sv : services}.
Implicit Types w : world sv.
Variables client_id seller_token : string.

Lemma after_pages_first n last_id product_list w w' r :
  after_pages (S n) client_id seller_token last_id product_list w = Some (w', Ok r) →
  ∃ w1 page,
    get_product_list last_id client_id seller_token w = Some (w1, Ok page) ∧
    after_pages 0 client_id seller_token last_id product_list w
    = Some (w1, Ok (Page.total page, Page.last_id page,
                    product_list ++ Page.items page)) ∧
    after_pages n client_id seller_token (Page.last_id page)
      (product_list ++ Page.items page) w1 = Some (w', Ok r).
Proof.
  simpl. intros H. apply bind_inv in H as [(w1 & page & Hpage & H)|(e & _ & ?)]; [|done].
  exists w1, page. split; [done|]. split; [|done].
  by rewrite (bind_ok _ _ _ _ _ Hpage).
Qed.

Lemma get_offer_ids_loop_exit n : ∀ steps last_id product_list w w' total last_id' acc,
  after_pages n client_id seller_token last_id product_list w
  = Some (w', Ok (total, last_id', acc)) →
  total = Z.of_nat (length acc) →
  (∀ m w'' t l a,
     m < n →
     after_pages m client_id seller_token last_id product_list w = Some (w'', Ok (t, l, a)) →
     t ≠ Z.of_nat (length a)) →
  get_offer_ids_loop steps client_id seller_token last_id product_list w
  = if decide (n < steps) then Some (w', Ok acc) else None.
Proof.
  induction n as [|n IH]; intros steps last_id product_list w w' total last_id' acc Hrun Htot Hearly;
    (destruct steps as [|steps]; [destruct (decide _); [lia|done] |]).
  - simpl in *. apply bind_inv in Hrun as [(w1 & page & Hpage & H)|(e & _ & ?)]; [|done].
    injection H as <- <- <- <-.
    rewrite (bind_ok _ _ _ _ _ Hpage).
    by rewrite (proj2 (Z.eqb_eq _ _) Htot).
  - destruct (after_pages_first _ _ _ _ _ _ Hrun) as (w1 & page & Hpage & Hfirst & Hrest).
    simpl. rewrite (bind_ok _ _ _ _ _ Hpage).
    assert (Page.total page ≠ Z.of_nat (length (product_list ++ Page.items page))) as Hne.
    { eapply (Hearly 0); [lia|exact Hfirst]. }
    rewrite (proj2 (Z.eqb_neq _ _) Hne).
    rewrite (IH steps _ _ _ _ _ _ _ Hrest Htot).
    + destruct (decide (n < steps)), (decide (S n < S steps)); done || lia.
    + intros m w'' t l a Hm Hm'. apply (Hearly (S m) w'' t l a); [lia|].
      simpl. by rewrite (bind_ok _ _ _ _ _ Hpage).
Qed.

Lemma after_pages_sent n : ∀ last_id product_list w w' r,
  after_pages n client_id seller_token last_id product_list w = Some (w', Ok r) →
  length (sent w') = length (sent w) + S n.
Proof.
  induction n as [|n IH]; intros last_id product_list w w' r Hrun.
  - simpl in Hrun. apply bind_inv in Hrun as [(w1 & page & Hpage & H)|(e & _ & ?)]; [|done].
    injection H as <- <-. unfold get_product_list in Hpage.
    destruct (product_list_endpoint _ _ _ _ _ _) as [st response].
    injection Hpage as <- _. simpl. rewrite length_app. simpl. lia.
  - destruct (after_pages_first _ _ _ _ _ _ Hrun) as (w1 & page & Hpage & _ & Hrest).
    rewrite (IH _ _ _ _ _ Hrest). unfold get_product_list in Hpage.
    destruct (product_list_endpoint _ _ _ _ _ _) as [st response].
    injection Hpage as <- _. simpl. rewrite length_app. simpl. lia.
Qed.

End Pagination.

(** C8. Take a marketplace whose page [n + 1] is the first to report a total
    equal to the number of products accumulated so far.  Then the loop of
    [get_offer_ids] ends right after that page, having sent [n + 1] requests,
    whenever it is given more than [n] iterations, and it is still running
    after any smaller number of iterations; [get_offer_ids] then returns a new
    list holding the offer ids of the accumulated products. *)
Theorem get_offer_ids_stops_at_total {sv} (client_id seller_token : string)
    (n : nat) (w w' : world sv) (total : Z) (last_id : string) (acc : list Product.t) :
  after_pages n client_id seller_token "" [] w = Some (w', Ok (total, last_id, acc)) →
  total = Z.of_nat (length acc) →
  (∀ m w'' t l a,
     m < n →
     after_pages m client_id seller_token "" [] w = Some (w'', Ok (t, l, a)) →
     t ≠ Z.of_nat (length a)) →
  (∀ steps, n < steps →
     get_offer_ids_loop steps client_id seller_token "" [] w = Some (w', Ok acc) ∧
     ∃ w'' offer_ids,
       get_offer_ids steps client_id seller_token w = Some (w'', Ok offer_ids) ∧
       heap w'' !! offer_ids = Some (map Product.offer_id acc) ∧
       sent w'' = sent w') ∧
  (∀ steps, steps ≤ n →
     get_offer_ids_loop steps client_id seller_token "" [] w = None ∧
     get_offer_ids steps client_id seller_token w = None) ∧
  length (sent w') = length (sent w) + S n.
Proof.
  intros Hrun Htot Hearly.
  pose proof (fun steps =>
    get_offer_ids_loop_exit client_id seller_token n steps _ _ _ _ _ _ _ Hrun Htot Hearly)
    as Hloop.
  split; [|split].
  - intros steps Hsteps. specialize (Hloop steps).
    rewrite decide_True in Hloop by done. split; [done|].
    unfold get_offer_ids. rewrite (bind_ok _ _ _ _ _ Hloop). unfold alloc.
    eexists _, _. split; [done|]. split; [|done]. simpl. apply lookup_insert_eq.
  - intros steps Hsteps. specialize (Hloop steps).
    rewrite decide_False in Hloop by lia. split; [done|].
    unfold get_offer_ids, mbind, M_bind. by rewrite Hloop.
  - by eapply after_pages_sent.
Qed.

(** Three pages of two products each, with a reported total of six. *)
Lemma get_offer_ids_stops_at_total_witness :
  ∃ w' acc,
    length acc = 6 ∧
    (∀ steps, 2 < steps →
       get_offer_ids_loop steps "id" "token" "" [] six_offers = Some (w', Ok acc) ∧
       ∃ w'' offer_ids,
         get_offer_ids steps "id" "token" six_offers = Some (w'', Ok offer_ids) ∧
         heap w'' !! offer_ids = Some (map Product.offer_id acc) ∧
         sent w'' = sent w') ∧
    (∀ steps, steps ≤ 2 →
       get_offer_ids_loop steps "id" "token" "" [] six_offers = None ∧
       get_offer_ids steps "id" "token" six_offers = None) ∧
    length (sent w') = length (sent six_offers) + 3.
Proof.
  destruct (after_pages 2 "id" "token" "" [] six_offers) as [[w' [[[total last_id] acc]|e]]|] eqn:Hrun;
    try (vm_compute in Hrun; discriminate).
  exists w', acc.
  assert (length acc = 6 ∧ total = 6%Z) as [Hlen Htot].
  { vm_compute in Hrun. injection Hrun as _ <- _ <-. split; reflexivity. }
  split; [done|].
  apply (get_offer_ids_stops_at_total "id" "token" 2 six_offers w' total last_id acc Hrun).
  - rewrite Hlen. by rewrite Htot.
  - intros m w'' t l a Hm Hpages.
    destruct m as [|[|m]]; [| |lia];
      vm_compute in Hpages; injection Hpages as _ <- _ <-; vm_compute; discriminate.
Defined.

(** Three pages of exactly 1000 products each, with a reported total of 3000:
    the loop ends after the third request with all 3000 offer ids. *)
Example get_offer_ids_three_full_pages :
  match get_offer_ids 5 "id" "token" three_full_pages with
  | Some (w', Ok offer_ids) =>
      heap w' !! offer_ids = Some (numbered_ids 3000) ∧ length (sent w') = 3
  | _ => False
  end.
Proof. vm_compute. split; reflexivity. Qed.

(** ** [download_stock] *)

Lemma download_stock_run {sv} (w : world sv) :
  download_stock w =
  let '(st, response) := ostatki_endpoint sv (remote_state w) in
  let w1 := exchange GetOstatki st w in
  match response with
  | Raise e => Some (w1, Raise e)
  | Ok None => Some (w1, Raise BadZipFile)
  | Ok (Some archive) =>
      let fs := extracted archive (files w) in
      match fs !! "ostatki.xls" with
      | None => Some (set_files fs w1, Raise FileNotFoundError)
      | Some contents =>
          match read_excel sv contents with
          | Ok rows => Some (set_files (delete "ostatki.xls" fs) w1, Ok rows)
          | Raise e => Some (set_files fs w1, Raise e)
          end
      end
  end.
Proof.
  unfold download_stock, mbind, M_bind, session_get_ostatki.
  destruct (ostatki_endpoint sv (remote_state w)) as [st [[archive|]|e]]; try done.
  unfold extractall, read_excel_records, os_remove. simpl.
  destruct (extracted archive (files w) !! "ostatki.xls") as [contents|] eqn:Hfile; [|done].
  destruct (read_excel sv contents); [|done].
  simpl. by rewrite Hfile.
Qed.

(** C6, as the code has it.  [download_stock] always ends; when it returns the
    rows, the extracted ["ostatki.xls"] is gone from the working directory;
    when the archive was extracted and the reader raises on the sheet, the
    exception is passed on and the sheet is still in the working directory. *)
Theorem download_stock_removes_sheet_after_parsing {sv} (w : world sv) :
  ∃ w' r,
    download_stock w = Some (w', r) ∧
    (∀ rows, r = Ok rows → files w' !! "ostatki.xls" = None) ∧
    (∀ st archive contents e,
       ostatki_endpoint sv (remote_state w) = (st, Ok (Some archive)) →
       extracted archive (files w) !! "ostatki.xls" = Some contents →
       read_excel sv contents = Raise e →
       r = Raise e ∧ files w' !! "ostatki.xls" = Some contents).
Proof.
  rewrite download_stock_run.
  destruct (ostatki_endpoint sv (remote_state w)) as [st [[archive|]|e]];
    try (eexists _, _; split; [done|]; split; [done|]; intros ? ? ? ? [=]).
  simpl.
  destruct (extracted archive (files w) !! "ostatki.xls") as [contents|] eqn:Hfile.
  - destruct (read_excel sv contents) as [rows|e] eqn:Hread.
    + eexists _, _. split; [done|]. split.
      * intros _ _. simpl. apply lookup_delete_eq.
      * intros st' archive' contents' e' [= <- <-] Hfile' Hread'.
        rewrite Hfile in Hfile'. injection Hfile' as <-. congruence.
    + eexists _, _. split; [done|]. split; [done|].
      intros st' archive' contents' e' [= <- <-] Hfile' Hread'.
      rewrite Hfile in Hfile'. injection Hfile' as <-. simpl. split; congruence.
  - eexists _, _. split; [done|]. split; [done|].
    intros st' archive' contents' e' [= <- <-] Hfile'. congruence.
Qed.

(** C6 as stated fails: the archive is extracted, the reader raises on the
    sheet, and the sheet is left in the working directory. *)
Lemma download_stock_leaves_sheet_when_parsing_raises :
  ∃ w',
    download_stock unreadable_sheet = Some (w', Raise XLRDError) ∧
    files unreadable_sheet !! "ostatki.xls" = None ∧
    files w' !! "ostatki.xls" = Some "sheet".
Proof. eexists. split; [vm_compute; reflexivity|]. split; reflexivity. Qed.

(** ** What the orchestration sends *)

Section Orchestration.
Context {sv : services}.
Implicit Types w : world sv.
Variables client_id seller_token : string.

Lemma pushed_same_log w w' : sent w' = sent w → pushed w w' [] [].
Proof. intros H. exists []. by rewrite app_nil_r. Qed.

Lemma pushed_trans w w1 w2 sb1 pb1 sb2 pb2 :
  pushed w w1 sb1 pb1 → pushed w1 w2 sb2 pb2 → pushed w w2 (sb1 ++ sb2) (pb1 ++ pb2).
Proof.
  intros (new1 & H1 & <- & <-) (new2 & H2 & <- & <-).
  exists (new1 ++ new2). rewrite H2, H1, app_assoc.
  unfold stock_batches, price_batches. by rewrite !omap_app.
Qed.

Lemma pushed_after_quiet w w1 w2 sb pb :
  pushed w w1 [] [] → pushed w1 w2 sb pb → pushed w w2 sb pb.
Proof. intros H1 H2. exact (pushed_trans _ _ _ _ _ _ _ H1 H2). Qed.

Lemma pushed_stocks_then_prices w w1 w2 sb pb :
  pushed w w1 sb [] → pushed w1 w2 [] pb → pushed w w2 sb pb.
Proof.
  intros H1 H2. pose proof (pushed_trans _ _ _ _ _ _ _ H1 H2) as H.
  by rewrite app_nil_r in H.
Qed.

Lemma get_product_list_frame last_id w w' r :
  get_product_list last_id client_id seller_token w = Some (w', r) →
  heap w' = heap w ∧ pushed w w' [] [].
Proof.
  unfold get_product_list.
  destruct (product_list_endpoint _ _ _ _ _ _) as [st response].
  intros [= <- _]. split; [done|]. by eexists [_].
Qed.

Lemma get_offer_ids_loop_frame steps : ∀ last_id product_list w w' r,
  get_offer_ids_loop steps client_id seller_token last_id product_list w = Some (w', r) →
  heap w' = heap w ∧ pushed w w' [] [].
Proof.
  induction steps as [|steps IH]; intros last_id product_list w w' r H; [done|].
  simpl in H. apply bind_inv in H as [(w1 & page & Hpage & H)|(e & Hpage & _)].
  - destruct (get_product_list_frame _ _ _ _ Hpage) as [Hh1 Hp1].
    destruct (_ =? _)%Z.
    + injection H as <- _. done.
    + destruct (IH _ _ _ _ _ H) as [Hh Hp]. split; [congruence|].
      by eapply pushed_after_quiet.
  - by eapply get_product_list_frame.
Qed.

Lemma get_offer_ids_frame steps w w' r :
  get_offer_ids steps client_id seller_token w = Some (w', r) →
  pushed w w' [] [] ∧ ∀ offer_ids, r = Ok offer_ids → is_Some (heap w' !! offer_ids).
Proof.
  unfold get_offer_ids. intros H.
  apply bind_inv in H as [(w1 & products & Hloop & H)|(e & Hloop & ->)].
  - destruct (get_offer_ids_loop_frame _ _ _ _ _ _ Hloop) as [_ Hp].
    unfold alloc in H. injection H as <- <-. split.
    + eapply pushed_after_quiet; [exact Hp|]. by apply pushed_same_log.
    + intros l [= <-]. simpl. rewrite lookup_insert_eq. eauto.
  - split; [|done]. by eapply get_offer_ids_loop_frame.
Qed.

Lemma download_stock_frame w w' r :
  download_stock w = Some (w', r) → heap w' = heap w ∧ pushed w w' [] [].
Proof.
  rewrite download_stock_run.
  destruct (ostatki_endpoint sv (remote_state w)) as [st [[archive|]|e]]; simpl;
    try (intros [= <- _]; split; [done|]; by eexists [_]).
  destruct (extracted archive (files w) !! "ostatki.xls") as [contents|];
    [destruct (read_excel sv contents)|];
    intros [= <- _]; (split; [done|]; by eexists [_]).
Qed.

Lemma for_each_update_stocks batches : ∀ w w' r,
  for_each batches (fun some_stock => update_stocks some_stock client_id seller_token) w
  = Some (w', r) →
  heap w' = heap w ∧
  ∃ k, pushed w w' (take k batches) [] ∧ (r = Ok tt → take k batches = batches).
Proof.
  induction batches as [|b batches IH]; intros w w' r H; simpl in H.
  - injection H as <- <-. split; [done|]. exists 0. split; [|done].
    by apply pushed_same_log.
  - assert (∀ w1 r1, update_stocks b client_id seller_token w = Some (w1, r1) →
                     heap w1 = heap w ∧ pushed w w1 [b] []) as Hone.
    { unfold update_stocks. destruct (import_stocks_endpoint _ _ _ _ _) as [st response].
      intros w1 r1 [= <- _]. split; [done|]. by eexists [_]. }
    apply bind_inv in H as [(w1 & body & Hsend & H)|(e & Hsend & ->)].
    + destruct (Hone _ _ Hsend) as [Hh1 Hp1].
      destruct (IH _ _ _ H) as (Hh & k & Hp & Hall).
      split; [congruence|]. exists (S k). split.
      * exact (pushed_trans _ _ _ _ _ _ _ Hp1 Hp).
      * intros Hok. simpl. by rewrite Hall.
    + destruct (Hone _ _ Hsend) as [Hh1 Hp1].
      split; [done|]. exists 1. split; [|done]. simpl. by rewrite take_0.
Qed.

Lemma for_each_update_price batches : ∀ w w' r,
  for_each batches (fun some_price => update_price some_price client_id seller_token) w
  = Some (w', r) →
  heap w' = heap w ∧
  ∃ k, pushed w w' [] (take k batches) ∧ (r = Ok tt → take k batches = batches).
Proof.
  induction batches as [|b batches IH]; intros w w' r H; simpl in H.
  - injection H as <- <-. split; [done|]. exists 0. split; [|done].
    by apply pushed_same_log.
  - assert (∀ w1 r1, update_price b client_id seller_token w = Some (w1, r1) →
                     heap w1 = heap w ∧ pushed w w1 [] [b]) as Hone.
    { unfold update_price. destruct (import_prices_endpoint _ _ _ _ _) as [st response].
      intros w1 r1 [= <- _]. split; [done|]. by eexists [_]. }
    apply bind_inv in H as [(w1 & body & Hsend & H)|(e & Hsend & ->)].
    + destruct (Hone _ _ Hsend) as [Hh1 Hp1].
      destruct (IH _ _ _ H) as (Hh & k & Hp & Hall).
      split; [congruence|]. exists (S k). split.
      * exact (pushed_trans _ _ _ _ _ _ _ Hp1 Hp).
      * intros Hok. simpl. by rewrite Hall.
    + destruct (Hone _ _ Hsend) as [Hh1 Hp1].
      split; [done|]. exists 1. split; [|done]. simpl. by rewrite take_0.
Qed.

End Orchestration.

Section Runs.
Context {sv : services}.
Implicit Types w : world sv.
Variables client_id seller_token : string.

Lemma push_stocks_inv {B} (stocks : list StockUpdate.t) (n : Z) (rest : M sv B) w w' r :
  (1 ≤ n)%Z →
  (lift (divide stocks n) ≫= fun batches =>
     for_each batches (fun some_stock => update_stocks some_stock client_id seller_token)
     ≫= fun _ => rest) w = Some (w', r) →
  ∃ w1 sb,
    heap w1 = heap w ∧ pushed w w1 sb [] ∧
    Forall (fun b => (Z.of_nat (length b) ≤ n)%Z) sb ∧
    ((∃ e, r = Raise e ∧ w' = w1) ∨ (concat sb = stocks ∧ rest w1 = Some (w', r))).
Proof.
  intros Hn H.
  destruct (divide_positive stocks n Hn) as (batches & Hdiv & Hall & Hcat & _).
  rewrite Hdiv in H. unfold lift in H.
  rewrite (bind_ok _ _ w w batches eq_refl) in H.
  apply bind_inv in H as [(w1 & [] & Hpush & H)|(e & Hpush & ->)];
    destruct (for_each_update_stocks _ _ _ _ _ _ Hpush) as (Hh & k & Hp & Hk).
  - exists w1, (take k batches). rewrite (Hk eq_refl) in *. eauto 10.
  - exists w', (take k batches). split; [done|]. split; [done|].
    split; [by apply Forall_take|]. left. eauto.
Qed.

Lemma push_prices_inv {B} (prices : list PriceUpdate.t) (n : Z) (rest : M sv B) w w' r :
  (1 ≤ n)%Z →
  (lift (divide prices n) ≫= fun batches =>
     for_each batches (fun some_price => update_price some_price client_id seller_token)
     ≫= fun _ => rest) w = Some (w', r) →
  ∃ w1 pb,
    heap w1 = heap w ∧ pushed w w1 [] pb ∧
    Forall (fun b => (Z.of_nat (length b) ≤ n)%Z) pb ∧
    (prices = [] → pb = []) ∧
    ((∃ e, r = Raise e ∧ w' = w1) ∨ (concat pb = prices ∧ rest w1 = Some (w', r))).
Proof.
  intros Hn H.
  destruct (divide_positive prices n Hn) as (batches & Hdiv & Hall & Hcat & _).
  assert (prices = [] → batches = []) as Hnil.
  { intros ->. rewrite divide_nil in Hdiv by done. by injection Hdiv as <-. }
  rewrite Hdiv in H. unfold lift in H.
  rewrite (bind_ok _ _ w w batches eq_refl) in H.
  apply bind_inv in H as [(w1 & [] & Hpush & H)|(e & Hpush & ->)];
    destruct (for_each_update_price _ _ _ _ _ _ Hpush) as (Hh & k & Hp & Hk).
  - exists w1, (take k batches). rewrite (Hk eq_refl) in *. eauto 10.
  - exists w', (take k batches). split; [done|]. split; [done|].
    split; [by apply Forall_take|]. split; [|left; eauto].
    intros Hprices. rewrite (Hnil Hprices). by rewrite take_nil.
Qed.

Lemma filter_none {A} (P : A → Prop) `{∀ x, Decision (P x)} (l : list A) :
  (∀ x, x ∈ l → ¬ P x) → filter P l = [].
Proof.
  induction l as [|x l IH]; intros Hl; [done|].
  rewrite filter_cons. destruct (decide (P x)) as [HP|_].
  - destruct (Hl x); [by left|done].
  - apply IH. intros y Hy. apply Hl. by right.
Qed.

(** After [create_stocks] on pairwise-distinct ids, the list holds no code of
    any row, and [create_prices] on the same list finds nothing. *)
Lemma create_prices_after_create_stocks (watch_remnants : list watch) (offer_ids : loc)
    w w1 (O : list string) stocks :
  heap w !! offer_ids = Some O →
  NoDup O →
  create_stocks watch_remnants offer_ids w = Some (w1, Ok stocks) →
  (∀ watch, watch ∈ watch_remnants → py_str (kod watch) ∉ heap w1 !!! offer_ids) ∧
  (∀ w2, heap w2 = heap w1 → create_prices watch_remnants offer_ids w2 = Some (w2, Ok [])).
Proof.
  intros Hl Hnd Hcs. rewrite (create_stocks_run _ _ _ _ Hl) in Hcs.
  destruct (stocks_pass watch_remnants O []) as [ids' [st|e]] eqn:Hpass; [|done].
  simpl in Hcs. injection Hcs as <- <-.
  assert (∀ watch, watch ∈ watch_remnants → py_str (kod watch) ∉ ids') as Hout.
  { intros watch Hin.
    pose proof (stocks_pass_consumed watch_remnants O [] st Hnd) as Hc.
    rewrite Hpass in Hc. by apply Hc. }
  assert (heap (set_heap (<[offer_ids := ids']> (heap w)) w) !!! offer_ids = ids') as Hids.
  { apply lookup_total_correct. simpl. apply lookup_insert_eq. }
  split; [by rewrite Hids|].
  intros w2 Hh. rewrite create_prices_run, Hh, Hids.
  by rewrite filter_none.
Qed.

Lemma main_try_trace steps w w' r :
  main_try steps client_id seller_token w = Some (w', r) →
  ∃ sb pb,
    pushed w w' sb pb ∧
    Forall (fun b => (Z.of_nat (length b) ≤ 100)%Z) sb ∧
    Forall (fun b => (Z.of_nat (length b) ≤ 900)%Z) pb ∧
    (∀ stocks prices, r = Ok (stocks, prices) → concat sb = stocks ∧ concat pb = prices) ∧
    ((∀ w1 offer_ids,
        get_offer_ids steps client_id seller_token w = Some (w1, Ok offer_ids) →
        NoDup (heap w1 !!! offer_ids)) →
     pb = []).
Proof.
  unfold main_try. intros H.
  apply bind_inv in H as [(w1 & l & Hids & H)|(e & Hids & ->)];
    destruct (get_offer_ids_frame _ _ _ _ _ _ Hids) as [Hp1 Hl];
    [|exists [], []; by repeat split].
  destruct (Hl l eq_refl) as [O HO].
  apply bind_inv in H as [(w2 & R & Hdl & H)|(e & Hdl & ->)];
    destruct (download_stock_frame _ _ _ Hdl) as [Hh2 Hp2];
    pose proof (pushed_after_quiet _ _ _ _ _ Hp1 Hp2) as Hp12;
    [|exists [], []; by repeat split].
  assert (heap w2 !! l = Some O) as HO2 by by rewrite Hh2.
  apply bind_inv in H as [(w3 & stocks & Hcs & H)|(e & Hcs & ->)].
  2: { rewrite (create_stocks_run _ _ _ _ HO2) in Hcs. injection Hcs as <- _.
       exists [], []. split; [|by repeat split].
       eapply pushed_after_quiet; [exact Hp12|]. by apply pushed_same_log. }
  assert (pushed w w3 [] []) as Hp3.
  { pose proof Hcs as Hcs'. rewrite (create_stocks_run _ _ _ _ HO2) in Hcs'.
    injection Hcs' as <- _.
    eapply pushed_after_quiet; [exact Hp12|]. by apply pushed_same_log. }
  apply push_stocks_inv in H as (w4 & sb & Hh4 & Hp4 & Hsb & H); [|lia].
  pose proof (pushed_after_quiet _ _ _ _ _ Hp3 Hp4) as Hp34.
  destruct H as [(e & -> & ->)|[Hcat H]]; [exists sb, []; by repeat split|].
  apply bind_inv in H as [(w5 & prices & Hcp & H)|(e & Hcp & ->)];
    [|by rewrite create_prices_run in Hcp].
  pose proof Hcp as Hcp'. rewrite create_prices_run in Hcp'. injection Hcp' as <- Hprices.
  apply push_prices_inv in H as (w6 & pb & Hh6 & Hp6 & Hpb & Hnil & H); [|lia].
  assert (w' = w6 ∧ ∀ stocks' prices',
            r = Ok (stocks', prices') → concat sb = stocks' ∧ concat pb = prices')
    as [-> Hlists].
  { destruct H as [(e & -> & ->)|[Hcat' H]]; [done|].
    injection H as <- <-. split; [done|]. by intros ? ? [= <- <-]. }
  exists sb, pb. split; [by eapply pushed_stocks_then_prices|].
  split; [done|]. split; [done|]. split; [done|].
  - intros Hnd. apply Hnil.
    assert (NoDup O) as HndO.
    { specialize (Hnd _ _ Hids). by rewrite (lookup_total_correct _ _ _ HO) in Hnd. }
    destruct (create_prices_after_create_stocks _ _ _ _ _ _ HO2 HndO Hcs) as [_ Hnone].
    rewrite (Hnone w4 Hh4) in Hcp. by injection Hcp as <-.
Qed.

Lemma main_runs_try steps w w' r :
  main steps client_id seller_token w = Some (w', r) →
  r = Ok tt ∧ ∃ r0, main_try steps client_id seller_token w = Some (w', r0).
Proof.
  unfold main, try_except, mbind, M_bind.
  destruct (main_try steps client_id seller_token w) as [[w1 [a|e]]|]; [| |done];
    intros [= <- <-]; eauto.
Qed.



End Runs.

(** ** Batches *)


(** 250 stock updates leave in batches of 100, 100 and 50. *)
Example upload_stocks_250 :
  match upload_stocks 5 [] "id" "token" many_offers with
  | Some (w', Ok (not_empty, stocks)) =>
      length stocks = 250 ∧
      map length (stock_batches (sent w')) = [100; 100; 50] ∧
      concat (stock_batches (sent w')) = stocks
  | _ => False
  end.
Proof. vm_compute. repeat split. Qed.

(** ** The price updates of [main] *)

(** C10. [main] hands [create_prices] the very list that [create_stocks] has
    shortened.  When the catalog's offer ids are pairwise distinct, no code of
    an inventory row is left in that list after [create_stocks], so
    [create_prices] on it yields nothing: the [prices] built in [main] are
    empty, and no run of [main] sends a price batch. *)
Theorem main_builds_no_price_update {sv} (steps : nat) (client_id seller_token : string)
    (w : world sv) :
  (∀ w1 offer_ids,
     get_offer_ids steps client_id seller_token w = Some (w1, Ok offer_ids) →
     NoDup (heap w1 !!! offer_ids)) →
  (∀ w' stocks prices,
     main_try steps client_id seller_token w = Some (w', Ok (stocks, prices)) →
     prices = []) ∧
  (∀ w' r,
     main steps client_id seller_token w = Some (w', r) → ∃ sb, pushed w w' sb []) ∧
  (∀ (watch_remnants : list watch) (offer_ids : loc) (w0 w1 : world sv) O stocks,
     heap w0 !! offer_ids = Some O →
     NoDup O →
     create_stocks watch_remnants offer_ids w0 = Some (w1, Ok stocks) →
     (∀ watch, watch ∈ watch_remnants → py_str (kod watch) ∉ heap w1 !!! offer_ids) ∧
     create_prices watch_remnants offer_ids w1 = Some (w1, Ok [])).
Proof.
  intros Hnd. split; [|split].
  - intros w' stocks prices H.
    destruct (main_try_trace _ _ _ _ _ _ H) as (sb & pb & _ & _ & _ & Hlists & Hpb).
    destruct (Hlists _ _ eq_refl) as [_ <-]. by rewrite (Hpb Hnd).
  - intros w' r H. destruct (main_runs_try _ _ _ _ _ _ H) as [_ [r0 H0]].
    destruct (main_try_trace _ _ _ _ _ _ H0) as (sb & pb & Hp & _ & _ & _ & Hpb).
    exists sb. by rewrite <- (Hpb Hnd).
  - intros watch_remnants offer_ids w0 w1 O stocks HO HndO Hcs.
    destruct (create_prices_after_create_stocks _ _ _ _ _ _ HO HndO Hcs) as [Hout Hnone].
    split; [done|]. by apply Hnone.
Qed.

Lemma main_builds_no_price_update_witness :
  (∀ w' stocks prices,
     main_try 5 "id" "token" two_offers = Some (w', Ok (stocks, prices)) →
     prices = []) ∧
  (∀ w' r,
     main 5 "id" "token" two_offers = Some (w', r) → ∃ sb, pushed two_offers w' sb []) ∧
  (∀ (watch_remnants : list watch) (offer_ids : loc)
     (w0 w1 : world (sample_services ["A"; "B"] 1000 true (Ok [row "A" ">10" "1'234.00 x"])))
     O stocks,
     heap w0 !! offer_ids = Some O →
     NoDup O →
     create_stocks watch_remnants offer_ids w0 = Some (w1, Ok stocks) →
     (∀ watch, watch ∈ watch_remnants → py_str (kod watch) ∉ heap w1 !!! offer_ids) ∧
     create_prices watch_remnants offer_ids w1 = Some (w1, Ok [])).
Proof.
  apply (main_builds_no_price_update 5 "id" "token" two_offers).
  intros w1 offer_ids H. vm_compute in H. injection H as <- <-.
  by apply (bool_decide_unpack _).
Defined.

(** The run of [main] on two offers "A" and "B" with one inventory row for
    "A": both stocks are pushed, no price is built; [upload_prices], which
    fetches the offer ids anew, does build the price of "A". *)
Example main_on_two_offers :
  (∃ w',
     main_try 5 "id" "token" two_offers
     = Some (w', Ok ([ {| StockUpdate.offer_id := "A"; StockUpdate.stock := 100 |};
                       {| StockUpdate.offer_id := "B"; StockUpdate.stock := 0 |} ], [])) ∧
     price_batches (sent w') = []) ∧
  (∃ w',
     upload_prices 5 [row "A" ">10" "1'234.00 x"] "id" "token" two_offers
     = Some (w', Ok [price_of (row "A" ">10" "1'234.00 x")]) ∧
     PriceUpdate.price (price_of (row "A" ">10" "1'234.00 x")) = "1234").
Proof.
  split; eexists; (split; [vm_compute; reflexivity|reflexivity]).
Qed.

(** * Further properties *)

(** ** [divide] at its edges *)

(** X1. A size of 0 makes [divide] raise [ValueError] (the step of [range]),
    whatever the list; a negative size yields no chunk at all, so the
    elements of the list are dropped without an error. *)
Theorem divide_size_not_positive {A} (lst : list A) :
  divide lst 0 = Raise ValueError ∧
  ∀ n, (n < 0)%Z → divide lst n = Ok [].
Proof.
  split; [reflexivity|]. intros n Hn. unfold divide, range.
  replace (n =? 0)%Z with false by (symmetry; apply Z.eqb_neq; lia).
  destruct (Z.to_nat _) as [|fuel]; [done|]. simpl.
  replace (0 <? n)%Z with false by (symmetry; apply Z.ltb_ge; lia).
  by replace (Z.of_nat (length lst) <? 0)%Z with false by (symmetry; apply Z.ltb_ge; lia).
Qed.

Lemma chunks_from_length {A} (lst : list A) (k : nat) :
  1 ≤ k →
  ∀ fuel i, length lst - i ≤ fuel →
    length (chunks_from lst k fuel i) = (length lst - i + k - 1) / k.
Proof.
  intros Hk. induction fuel as [|fuel IH]; intros i Hfuel.
  - rewrite chunks_from_end by lia.
    replace (length lst - i + k - 1) with (k - 1) by lia.
    symmetry. apply Nat.div_small. lia.
  - destruct (decide (i < length lst)) as [Hi|Hi].
    + rewrite chunks_from_step by done. simpl. rewrite IH by lia.
      destruct (decide (k ≤ length lst - i)) as [Hle|Hgt].
      * replace (length lst - i + k - 1) with (1 * k + (length lst - (i + k) + k - 1)) by lia.
        rewrite Nat.div_add_l by lia. lia.
      * replace (length lst - (i + k) + k - 1) with (k - 1) by lia.
        rewrite (Nat.div_small (k - 1)) by lia.
        apply (Nat.div_unique _ _ _ (length lst - i - 1)); lia.
    + rewrite chunks_from_end by lia.
      replace (length lst - i + k - 1) with (k - 1) by lia.
      symmetry. apply Nat.div_small. lia.
Qed.

(** X2. For a size [n] of at least 1, [divide] yields the ceiling of
    [len(lst) / n] chunks, and none of them is empty: no empty batch is ever
    handed to a push. *)
Theorem divide_count {A} (lst : list A) (n : Z) :
  (1 ≤ n)%Z →
  ∃ chunks,
    divide lst n = Ok chunks ∧
    Z.of_nat (length chunks) = ((Z.of_nat (length lst) + n - 1) / n)%Z ∧
    Forall (fun c => c ≠ []) chunks.
Proof.
  intros Hn.
  assert (n = Z.of_nat (Z.to_nat n)) as Hk by lia.
  assert (1 ≤ Z.to_nat n) as Hpos by lia.
  rewrite Hk. set (k := Z.to_nat n) in *.
  destruct (chunks_from_spec lst k Hpos (length lst) 0) as (_ & Hall & _); [lia|].
  eexists. split; [by apply divide_chunks_from|]. split.
  - rewrite chunks_from_length by lia. rewrite Nat2Z.inj_div. f_equal. lia.
  - eapply Forall_impl; [exact Hall|]. by intros c [_ ?].
Qed.

Lemma divide_count_witness :
  ∃ chunks,
    divide [1; 2; 3; 4; 5; 6; 7]%Z 3 = Ok chunks ∧
    Z.of_nat (length chunks) = ((Z.of_nat (length [1; 2; 3; 4; 5; 6; 7]%Z) + 3 - 1) / 3)%Z ∧
    Forall (fun c => c ≠ []) chunks.
Proof. apply (divide_count [1; 2; 3; 4; 5; 6; 7]%Z 3). lia. Defined.

(** ** [price_conversion] beyond the samples *)

Lemma price_conversion_keep s : price_conversion s = keep_digits (before_first_dot s).
Proof. unfold price_conversion. by rewrite re_sub_not_0_9, split_first_piece. Qed.

Lemma keep_digits_only s :
  forallb (in_range "0" "9") (list_ascii_of_string (keep_digits s)) = true.
Proof.
  induction s as [|c s IH]; simpl; [done|].
  rewrite <- in_range_decimal_digits.
  destruct (in_range "0" "9" c) eqn:Hc; simpl; [by rewrite Hc|done].
Qed.

Lemma digits_fixed s :
  forallb (in_range "0" "9") (list_ascii_of_string s) = true →
  before_first_dot s = s ∧ keep_digits s = s.
Proof.
  induction s as [|c s IH]; simpl; [done|].
  intros [Hc Hs]%andb_prop. destruct (IH Hs) as [-> ->].
  rewrite <- in_range_decimal_digits, Hc.
  destruct (Ascii.eqb_spec c ".") as [->|_]; [done|done].
Qed.

(** X3. Whatever the text, the result of [price_conversion] holds nothing but
    the digits 0-9, and converting a converted price changes nothing. *)
Theorem price_conversion_digits_only s :
  forallb (in_range "0" "9") (list_ascii_of_string (price_conversion s)) = true ∧
  price_conversion (price_conversion s) = price_conversion s.
Proof.
  assert (forallb (in_range "0" "9") (list_ascii_of_string (price_conversion s)) = true)
    as Hd by (rewrite price_conversion_keep; apply keep_digits_only).
  split; [done|].
  rewrite (price_conversion_keep (price_conversion s)).
  destruct (digits_fixed _ Hd) as [-> ->]. done.
Qed.

Lemma before_first_dot_app s t :
  before_first_dot (s +:+ String "." t) = before_first_dot s.
Proof.
  induction s as [|c s IH]; simpl; [done|].
  destruct (Ascii.eqb c "."); [done|]. by rewrite IH.
Qed.

(** X4. Nothing after a "." reaches the result: a price followed by "." and
    any text converts like the price alone, so kopecks, a currency suffix or a
    second amount after the dot are all dropped; in particular a text that
    begins with "." converts to the empty text. *)
Theorem price_conversion_ignores_after_dot s t :
  price_conversion (s +:+ String "." t) = price_conversion s ∧
  price_conversion (String "." t) = "".
Proof.
  split.
  - by rewrite !price_conversion_keep, before_first_dot_app.
  - reflexivity.
Qed.

(** ** [create_stocks] beyond distinct ids *)

Section StocksPassMore.
Implicit Types (ids : list string) (stocks : list StockUpdate.t).




Lemma stocks_pass_unmatched watch_remnants ids stocks :
  (∀ watch, watch ∈ watch_remnants → py_str (kod watch) ∉ ids) →
  stocks_pass watch_remnants ids stocks = (ids, Ok stocks).
Proof.
  induction watch_remnants as [|watch rest IH]; intros Hout; simpl; [done|].
  unfold py_in. rewrite bool_decide_eq_false_2 by (apply Hout; by left).
  apply IH. intros watch' Hin. apply Hout. by right.
Qed.



Lemma stocks_pass_absent_code before : ∀ dup after ids stocks,
  py_str (kod dup) ∉ ids →
  stocks_pass (before ++ dup :: after) ids stocks = stocks_pass (before ++ after) ids stocks.
Proof.
  induction before as [|watch before IH]; intros dup after ids stocks Hout; simpl.
  - unfold py_in. by rewrite bool_decide_eq_false_2.
  - destruct (py_in _ ids); [|by apply IH].
    destruct (stock_of_quantity _); [|done].
    destruct (list_remove _ ids) as [ids1|] eqn:E; [|done].
    apply IH. intros Hin. apply Hout. by eapply list_remove_subset.
Qed.

Lemma stocks_pass_later_duplicate before : ∀ dup after ids stocks,
  NoDup ids →
  (∃ watch, watch ∈ before ∧ py_str (kod watch) = py_str (kod dup)) →
  stocks_pass (before ++ dup :: after) ids stocks = stocks_pass (before ++ after) ids stocks.
Proof.
  induction before as [|first before IH]; intros dup after ids stocks Hnd (watch & Hin & Hcode).
  { by apply elem_of_nil in Hin. }
  destruct (decide (py_str (kod first) = py_str (kod dup))) as [Hsame|Hother].
  - simpl. unfold py_in. case_bool_decide as Hfirst.
    + destruct (stock_of_quantity _); [|done].
      destruct (list_remove _ ids) as [ids1|] eqn:E; [|done].
      apply stocks_pass_absent_code. rewrite <- Hsame.
      by destruct (list_remove_NoDup _ _ _ Hnd E).
    + apply stocks_pass_absent_code. by rewrite <- Hsame.
  - apply elem_of_cons in Hin as [->|Hin]; [done|].
    simpl. destruct (py_in _ ids); [|apply IH; eauto].
    destruct (stock_of_quantity _); [|done].
    destruct (list_remove _ ids) as [ids1|] eqn:E; [|done].
    apply IH; [|eauto]. by destruct (list_remove_NoDup _ _ _ Hnd E).
Qed.

End StocksPassMore.



(** X6. Rows that match no offer id are never parsed: when no row's code is
    among the ids, [create_stocks] returns a zero stock for every id, in the
    order of the list, and changes nothing, whatever the quantity cells hold. *)
Theorem create_stocks_no_match {sv} (watch_remnants : list watch) (offer_ids : loc)
    (w : world sv) (O : list string) :
  heap w !! offer_ids = Some O →
  (∀ watch, watch ∈ watch_remnants → py_str (kod watch) ∉ O) →
  create_stocks watch_remnants offer_ids w = Some (w, Ok (map zero_stock O)).
Proof.
  intros Hl Hout. rewrite (create_stocks_run _ _ _ _ Hl).
  rewrite (stocks_pass_unmatched _ _ _ Hout). simpl. by rewrite set_heap_id.
Qed.

Lemma create_stocks_no_match_witness :
  create_stocks [row "Z" "soon" "1.00"; row "Y" "" "2.00"] 0
    (with_heap {[ 0 := ["A"; "B"] ]})
  = Some (with_heap {[ 0 := ["A"; "B"] ]}, Ok (map zero_stock ["A"; "B"])).
Proof.
  apply (create_stocks_no_match _ 0 (with_heap {[ 0 := ["A"; "B"] ]}) ["A"; "B"]).
  - reflexivity.
  - intros watch Hin.
    repeat (apply elem_of_cons in Hin as [->|Hin];
            [by apply (bool_decide_unpack (_ ∉ _))|]).
    by apply elem_of_nil in Hin.
Defined.





(** X9. With pairwise-distinct ids, only the first row of a code counts: a
    later row that repeats the code of an earlier one changes nothing in what
    [create_stocks] does, not even when its quantity cannot be parsed. *)
Theorem create_stocks_ignores_later_duplicate {sv} (before after : list watch) (dup : watch)
    (offer_ids : loc) (w : world sv) (O : list string) :
  heap w !! offer_ids = Some O →
  NoDup O →
  (∃ watch, watch ∈ before ∧ py_str (kod watch) = py_str (kod dup)) →
  create_stocks (before ++ dup :: after) offer_ids w
  = create_stocks (before ++ after) offer_ids w.
Proof.
  intros Hl Hnd Hdup. rewrite !(create_stocks_run _ _ _ _ Hl).
  by rewrite (stocks_pass_later_duplicate before dup after O [] Hnd Hdup).
Qed.

Lemma create_stocks_ignores_later_duplicate_witness :
  create_stocks ([row "A" "5" "1.00"] ++ row "A" "soon" "2.00" :: [row "B" "7" "3.00"])
    0 (with_heap {[ 0 := ["A"; "B"] ]})
  = create_stocks ([row "A" "5" "1.00"] ++ [row "B" "7" "3.00"])
      0 (with_heap {[ 0 := ["A"; "B"] ]}).
Proof.
  apply (create_stocks_ignores_later_duplicate [row "A" "5" "1.00"] [row "B" "7" "3.00"]
           (row "A" "soon" "2.00") 0 (with_heap {[ 0 := ["A"; "B"] ]}) ["A"; "B"]).
  - reflexivity.
  - by apply (bool_decide_unpack _).
  - exists (row "A" "5" "1.00"). split; [by left|reflexivity].
Defined.

(** ** Quantity cells that are not plain digit texts *)






(** ** [create_prices] row by row *)

(** X11. [create_prices] answers row by row: the offer ids of its result are
    the codes of the rows that are among the ids, in the order of the rows
    and as often as rows carry them (a code on two rows gets two price
    entries); every price is made of digits only; the world is unchanged. *)
Theorem create_prices_row_order {sv} (watch_remnants : list watch) (offer_ids : loc)
    (w : world sv) :
  ∃ prices,
    create_prices watch_remnants offer_ids w = Some (w, Ok prices) ∧
    map PriceUpdate.offer_id prices
    = filter (fun code => code ∈ heap w !!! offer_ids)
             (map (fun watch => py_str (kod watch)) watch_remnants) ∧
    Forall (fun p => forallb (in_range "0" "9")
                       (list_ascii_of_string (PriceUpdate.price p)) = true) prices.
Proof.
  eexists. split; [apply create_prices_run|]. split.
  - induction watch_remnants as [|watch rest IH]; [done|].
    simpl. rewrite !filter_cons.
    destruct (decide (py_str (kod watch) ∈ heap w !!! offer_ids)); simpl; by rewrite IH.
  - apply Forall_fmap, Forall_forall. intros watch _. simpl.
    rewrite price_conversion_keep. apply keep_digits_only.
Qed.

(** ** [get_offer_ids]: what it touches and what it sends *)

Section PaginationMore.
Context {sv : services}.
Implicit Types w : world sv.
Variables client_id seller_token : string.

Lemma get_product_list_effect last_id w w' r :
  get_product_list last_id client_id seller_token w = Some (w', r) →
  heap w' = heap w ∧ files w' = files w ∧
  sent w' = sent w ++ list_requests client_id seller_token [last_id].
Proof.
  unfold get_product_list.
  destruct (product_list_endpoint _ _ _ _ _ _) as [st response].
  by intros [= <- _].
Qed.

Lemma get_offer_ids_loop_effect steps : ∀ last_id product_list w w' r,
  get_offer_ids_loop steps client_id seller_token last_id product_list w = Some (w', r) →
  heap w' = heap w ∧ files w' = files w ∧
  ∃ cursors,
    sent w' = sent w ++ list_requests client_id seller_token (last_id :: cursors) ∧
    S (length cursors) ≤ steps.
Proof.
  induction steps as [|steps IH]; intros last_id product_list w w' r H; [done|].
  simpl in H. apply bind_inv in H as [(w1 & page & Hpage & H)|(e & Hpage & _)];
    destruct (get_product_list_effect _ _ _ _ Hpage) as (Hh1 & Hf1 & Hs1).
  - destruct (_ =? _)%Z.
    + injection H as <- _. repeat split; try done. exists []. split; [done|simpl; lia].
    + destruct (IH _ _ _ _ _ H) as (Hh & Hf & cursors & Hs & Hlen).
      split; [congruence|]. split; [congruence|].
      exists (Page.last_id page :: cursors). split; [|simpl; lia].
      rewrite Hs, Hs1. by rewrite <- app_assoc.
  - repeat split; try done. exists []. split; [done|simpl; lia].
Qed.

End PaginationMore.

(** X12. [get_offer_ids] leaves every existing list and the working directory
    alone.  When it returns, its result is a list object that did not exist
    before and the rest of the heap is as it was; when it raises, the heap is
    untouched: the products accumulated so far are dropped. *)
Theorem get_offer_ids_allocates {sv} (steps : nat) (client_id seller_token : string)
    (w w' : world sv) (r : result loc) :
  get_offer_ids steps client_id seller_token w = Some (w', r) →
  files w' = files w ∧
  match r with
  | Ok offer_ids =>
      heap w !! offer_ids = None ∧
      is_Some (heap w' !! offer_ids) ∧
      ∀ other, other ≠ offer_ids → heap w' !! other = heap w !! other
  | Raise _ => heap w' = heap w
  end.
Proof.
  unfold get_offer_ids. intros H.
  apply bind_inv in H as [(w1 & products & Hloop & H)|(e & Hloop & ->)];
    destruct (get_offer_ids_loop_effect _ _ _ _ _ _ _ _ Hloop) as (Hh & Hf & _);
    [|done].
  unfold alloc in H. injection H as <- <-. simpl. split; [done|]. rewrite Hh.
  split; [|split].
  - apply not_elem_of_dom, is_fresh.
  - rewrite lookup_insert_eq. eauto.
  - intros other Hother. by rewrite lookup_insert_ne.
Qed.

Lemma get_offer_ids_allocates_witness :
  ∃ w' offer_ids,
    get_offer_ids 5 "id" "token" two_offers = Some (w', Ok offer_ids) ∧
    files w' = files two_offers ∧
    heap two_offers !! offer_ids = None ∧
    is_Some (heap w' !! offer_ids) ∧
    ∀ other, other ≠ offer_ids → heap w' !! other = heap two_offers !! other.
Proof.
  destruct (get_offer_ids 5 "id" "token" two_offers) as [[w' [offer_ids|e]]|] eqn:H;
    try (vm_compute in H; discriminate).
  exists w', offer_ids. split; [done|].
  exact (get_offer_ids_allocates 5 "id" "token" two_offers w' (Ok offer_ids) H).
Defined.

(** X13. Whatever the marketplace answers, [get_offer_ids] sends nothing but
    product list requests with limit 1000 and the caller's credentials, at
    least one of them, the first with the empty cursor. *)
Theorem get_offer_ids_requests {sv} (steps : nat) (client_id seller_token : string)
    (w w' : world sv) (r : result loc) :
  get_offer_ids steps client_id seller_token w = Some (w', r) →
  ∃ cursors,
    sent w' = sent w ++ list_requests client_id seller_token ("" :: cursors).
Proof.
  unfold get_offer_ids. intros H.
  apply bind_inv in H as [(w1 & products & Hloop & H)|(e & Hloop & ->)];
    destruct (get_offer_ids_loop_effect _ _ _ _ _ _ _ _ Hloop)
      as (_ & _ & cursors & Hs & _); exists cursors; [|done].
  unfold alloc in H. by injection H as <- _.
Qed.

Lemma get_offer_ids_requests_witness :
  ∃ w' r cursors,
    get_offer_ids 5 "id" "token" six_offers = Some (w', r) ∧
    sent w' = sent six_offers ++ list_requests "id" "token" ("" :: cursors).
Proof.
  destruct (get_offer_ids 5 "id" "token" six_offers) as [[w' r]|] eqn:H;
    [|vm_compute in H; discriminate].
  destruct (get_offer_ids_requests 5 "id" "token" six_offers w' r H) as [cursors Hs].
  by exists w', r, cursors.
Defined.

Section PaginationFailure.
Context {sv : services}.
Implicit Types w : world sv.
Variables client_id seller_token : string.

Lemma get_offer_ids_loop_raise n : ∀ steps last_id product_list w w' e,
  after_pages n client_id seller_token last_id product_list w = Some (w', Raise e) →
  (∀ m w'' t l a,
     m < n →
     after_pages m client_id seller_token last_id product_list w = Some (w'', Ok (t, l, a)) →
     t ≠ Z.of_nat (length a)) →
  n < steps →
  get_offer_ids_loop steps client_id seller_token last_id product_list w
  = Some (w', Raise e).
Proof.
  induction n as [|n IH]; intros steps last_id product_list w w' e Hrun Hearly Hsteps;
    (destruct steps as [|steps]; [lia|]); simpl in *.
  - apply bind_inv in Hrun as [(w1 & page & Hpage & H)|(e' & Hpage & [= <-])]; [done|].
    by rewrite (bind_raise _ _ _ _ _ Hpage).
  - apply bind_inv in Hrun as [(w1 & page & Hpage & H)|(e' & Hpage & [= <-])];
      [|by rewrite (bind_raise _ _ _ _ _ Hpage)].
    rewrite (bind_ok _ _ _ _ _ Hpage).
    assert (Page.total page ≠ Z.of_nat (length (product_list ++ Page.items page))) as Hne.
    { eapply (Hearly 0); [lia|]. simpl. by rewrite (bind_ok _ _ _ _ _ Hpage). }
    rewrite (proj2 (Z.eqb_neq _ _) Hne).
    apply (IH steps _ _ _ _ _ H); [|lia].
    intros m w'' t l a Hm Hm'. apply (Hearly (S m) w'' t l a); [lia|].
    simpl. by rewrite (bind_ok _ _ _ _ _ Hpage).
Qed.

Lemma get_offer_ids_loop_running steps : ∀ last_id product_list w,
  (∀ m, m < steps →
     ∃ w'' t l a,
       after_pages m client_id seller_token last_id product_list w
       = Some (w'', Ok (t, l, a)) ∧
       t ≠ Z.of_nat (length a)) →
  get_offer_ids_loop steps client_id seller_token last_id product_list w = None.
Proof.
  induction steps as [|steps IH]; intros last_id product_list w Hpages; [done|].
  destruct (Hpages 0) as (w1 & t & l & a & Hfirst & Hne); [lia|].
  simpl in Hfirst.
  apply bind_inv in Hfirst as [(w1' & page & Hpage & H)|(e' & _ & ?)]; [|done].
  injection H as <- <- <- <-.
  simpl. rewrite (bind_ok _ _ _ _ _ Hpage), (proj2 (Z.eqb_neq _ _) Hne).
  apply IH. intros m Hm.
  destruct (Hpages (S m)) as (w'' & t & l & a & Hrun & Hne'); [lia|].
  simpl in Hrun. rewrite (bind_ok _ _ _ _ _ Hpage) in Hrun. eauto 10.
Qed.

End PaginationFailure.

(** X14. No retry in the pagination: when a list request raises before any
    page has reported a total equal to the count so far, [get_offer_ids]
    raises that exception, in the world right after the failed request, and
    allocates no list. *)
Theorem get_offer_ids_propagates_error {sv} (client_id seller_token : string)
    (n : nat) (w w' : world sv) (e : exn) :
  after_pages n client_id seller_token "" [] w = Some (w', Raise e) →
  (∀ m w'' t l a,
     m < n →
     after_pages m client_id seller_token "" [] w = Some (w'', Ok (t, l, a)) →
     t ≠ Z.of_nat (length a)) →
  ∀ steps, n < steps →
    get_offer_ids steps client_id seller_token w = Some (w', Raise e).
Proof.
  intros Hrun Hearly steps Hsteps. unfold get_offer_ids.
  apply bind_raise. by eapply get_offer_ids_loop_raise.
Qed.

Lemma get_offer_ids_propagates_error_witness :
  ∃ w',
    length (sent w') = 2 ∧ heap w' = ∅ ∧
    ∀ steps, 1 < steps →
      get_offer_ids steps "id" "token" second_page_fails = Some (w', Raise HTTPError).
Proof.
  destruct (after_pages 1 "id" "token" "" [] second_page_fails)
    as [[w' [r|e]]|] eqn:Hrun; try (vm_compute in Hrun; discriminate).
  assert (e = HTTPError ∧ length (sent w') = 2 ∧ heap w' = ∅) as (-> & Hlen & Hheap).
  { vm_compute in Hrun. injection Hrun as <- <-. by repeat split. }
  exists w'. split; [done|]. split; [done|].
  apply (get_offer_ids_propagates_error "id" "token" 1 second_page_fails w' HTTPError Hrun).
  intros m w'' t l a Hm Hpage. destruct m as [|m]; [|lia].
  vm_compute in Hpage. injection Hpage as _ <- _ <-. discriminate.
Defined.

(** X15. The loop has no other way out than a matching total or an exception:
    as long as every page arrives and reports a total different from the
    count so far, [get_offer_ids] keeps requesting; after any number of
    iterations for which that holds it has not returned. *)
Theorem get_offer_ids_keeps_requesting {sv} (client_id seller_token : string)
    (steps : nat) (w : world sv) :
  (∀ m, m < steps →
     ∃ w'' t l a,
       after_pages m client_id seller_token "" [] w = Some (w'', Ok (t, l, a)) ∧
       t ≠ Z.of_nat (length a)) →
  get_offer_ids steps client_id seller_token w = None.
Proof.
  intros Hpages. unfold get_offer_ids, mbind, M_bind.
  by rewrite get_offer_ids_loop_running.
Qed.

(** A marketplace that reports one offer and serves none is asked again and
    again. *)
Lemma get_offer_ids_keeps_requesting_witness :
  get_offer_ids 3 "id" "token" empty_pages = None.
Proof.
  apply (get_offer_ids_keeps_requesting "id" "token" 3 empty_pages).
  intros m Hm. destruct m as [|[|[|m]]]; [| | |lia];
    (eexists _, _, _, _; split; [vm_compute; reflexivity|discriminate]).
Defined.

(** ** [download_stock] and the working directory *)







(** X18. A failed download writes nothing.  When the request raises or the
    body is not a zip archive, [download_stock] raises (the request's
    exception, or [BadZipFile]) and the working directory and the heap are as
    before; only the request is logged. *)
Theorem download_stock_failed_download {sv} (w : world sv) (st : remote sv)
    (response : result (option (list (string * string)))) :
  ostatki_endpoint sv (remote_state w) = (st, response) →
  (∀ archive, response ≠ Ok (Some archive)) →
  ∃ w',
    download_stock w
    = Some (w', Raise (match response with Raise e => e | _ => BadZipFile end)) ∧
    files w' = files w ∧ heap w' = heap w ∧ sent w' = sent w ++ [GetOstatki].
Proof.
  intros Hend Hno. rewrite download_stock_run, Hend.
  destruct response as [[archive|]|e]; simpl.
  - by destruct (Hno archive).
  - by eexists.
  - by eexists.
Qed.

Lemma download_stock_failed_download_witness :
  ∃ w',
    download_stock second_page_fails = Some (w', Raise ConnectionError) ∧
    files w' = files second_page_fails ∧ heap w' = heap second_page_fails ∧
    sent w' = sent second_page_fails ++ [GetOstatki].
Proof.
  apply (download_stock_failed_download second_page_fails 0 (Raise ConnectionError)).
  - reflexivity.
  - done.
Defined.

(** ** Pushing batches *)

Section Pushing.
Context {sv : services}.
Implicit Types w : world sv.
Variables client_id seller_token : string.

Lemma for_each_raise {A B} (f : A → M sv B) (xs : list A) : ∀ w w' e,
  for_each xs f w = Some (w', Raise e) →
  ∃ k x wk,
    xs !! k = Some x ∧
    for_each (take k xs) f w = Some (wk, Ok tt) ∧
    f x wk = Some (w', Raise e).
Proof.
  induction xs as [|x xs IH]; intros w w' e H; simpl in H; [done|].
  apply bind_inv in H as [(w1 & b & Hx & H)|(e' & Hx & [= <-])].
  - destruct (IH _ _ _ H) as (k & x' & wk & Hk & Hbefore & Hfail).
    exists (S k), x', wk. split; [done|]. split; [|done].
    simpl. by rewrite (bind_ok _ _ _ _ _ Hx).
  - exists 0, x, w. by rewrite take_0.
Qed.

Lemma update_stocks_log b w w' r :
  update_stocks b client_id seller_token w = Some (w', r) →
  heap w' = heap w ∧ sent w' = sent w ++ [ImportStocks b client_id seller_token].
Proof.
  unfold update_stocks. destruct (import_stocks_endpoint _ _ _ _ _) as [st response].
  by intros [= <- _].
Qed.

Lemma update_price_log b w w' r :
  update_price b client_id seller_token w = Some (w', r) →
  heap w' = heap w ∧ sent w' = sent w ++ [ImportPrices b client_id seller_token].
Proof.
  unfold update_price. destruct (import_prices_endpoint _ _ _ _ _) as [st response].
  by intros [= <- _].
Qed.

Lemma for_each_update_stocks_log batches : ∀ w w' r,
  for_each batches (fun some_stock => update_stocks some_stock client_id seller_token) w
  = Some (w', r) →
  heap w' = heap w ∧
  ∃ k,
    sent w' = sent w ++
              map (fun b => ImportStocks b client_id seller_token) (take k batches) ∧
    (r = Ok tt → take k batches = batches).
Proof.
  induction batches as [|b batches IH]; intros w w' r H; simpl in H.
  - injection H as <- <-. split; [done|]. exists 0. by rewrite app_nil_r.
  - apply bind_inv in H as [(w1 & body & Hsend & H)|(e & Hsend & ->)];
      destruct (update_stocks_log _ _ _ _ Hsend) as [Hh1 Hs1].
    + destruct (IH _ _ _ H) as (Hh & k & Hs & Hall).
      split; [congruence|]. exists (S k). split.
      * rewrite Hs, Hs1. simpl. by rewrite <- app_assoc.
      * intros Hok. simpl. by rewrite Hall.
    + split; [done|]. exists 1. simpl. by rewrite take_0.
Qed.

Lemma for_each_update_price_log batches : ∀ w w' r,
  for_each batches (fun some_price => update_price some_price client_id seller_token) w
  = Some (w', r) →
  heap w' = heap w ∧
  ∃ k,
    sent w' = sent w ++
              map (fun b => ImportPrices b client_id seller_token) (take k batches) ∧
    (r = Ok tt → take k batches = batches).
Proof.
  induction batches as [|b batches IH]; intros w w' r H; simpl in H.
  - injection H as <- <-. split; [done|]. exists 0. by rewrite app_nil_r.
  - apply bind_inv in H as [(w1 & body & Hsend & H)|(e & Hsend & ->)];
      destruct (update_price_log _ _ _ _ Hsend) as [Hh1 Hs1].
    + destruct (IH _ _ _ H) as (Hh & k & Hs & Hall).
      split; [congruence|]. exists (S k). split.
      * rewrite Hs, Hs1. simpl. by rewrite <- app_assoc.
      * intros Hok. simpl. by rewrite Hall.
    + split; [done|]. exists 1. simpl. by rewrite take_0.
Qed.

End Pushing.

(** X19. The push loop stops at the first rejected batch.  When pushing the
    stock batches raises, some batch [k] is the one whose request raised: the
    batches before it were all sent and accepted, batch [k] was sent and is
    the last request in the log, and no later batch is sent. *)
Theorem stock_push_stops_at_failure {sv} (client_id seller_token : string)
    (batches : list (list StockUpdate.t)) (w w' : world sv) (e : exn) :
  for_each batches (fun some_stock => update_stocks some_stock client_id seller_token) w
  = Some (w', Raise e) →
  ∃ k b wk,
    batches !! k = Some b ∧
    for_each (take k batches)
      (fun some_stock => update_stocks some_stock client_id seller_token) w
    = Some (wk, Ok tt) ∧
    update_stocks b client_id seller_token wk = Some (w', Raise e) ∧
    sent w' = sent w ++
              map (fun b => ImportStocks b client_id seller_token) (take (S k) batches).
Proof.
  intros H. destruct (for_each_raise _ _ _ _ _ H) as (k & b & wk & Hk & Hbefore & Hfail).
  exists k, b, wk. split; [done|]. split; [done|]. split; [done|].
  destruct (for_each_update_stocks_log _ _ _ _ _ _ Hbefore) as (_ & j & Hs & Hall).
  destruct (update_stocks_log _ _ _ _ _ _ Hfail) as [_ Hs'].
  rewrite Hs', Hs, (Hall eq_refl).
  rewrite (take_S_r _ _ _ Hk), map_app. by rewrite <- app_assoc.
Qed.

Lemma stock_push_stops_at_failure_witness :
  ∃ w' k b wk,
    for_each [[zero_stock "A"]; [zero_stock "B"]]
      (fun some_stock => update_stocks some_stock "id" "token") rejecting
    = Some (w', Raise HTTPError) ∧
    [[zero_stock "A"]; [zero_stock "B"]] !! k = Some b ∧
    for_each (take k [[zero_stock "A"]; [zero_stock "B"]])
      (fun some_stock => update_stocks some_stock "id" "token") rejecting
    = Some (wk, Ok tt) ∧
    update_stocks b "id" "token" wk = Some (w', Raise HTTPError) ∧
    sent w' = sent rejecting ++
              map (fun b => ImportStocks b "id" "token")
                  (take (S k) [[zero_stock "A"]; [zero_stock "B"]]).
Proof.
  destruct (for_each [[zero_stock "A"]; [zero_stock "B"]]
              (fun some_stock => update_stocks some_stock "id" "token") rejecting)
    as [[w' [[]|e]]|] eqn:H; try (vm_compute in H; discriminate).
  assert (e = HTTPError) as -> by (vm_compute in H; by injection H as _ <-).
  destruct (stock_push_stops_at_failure "id" "token" _ rejecting w' HTTPError H)
    as (k & b & wk & Hrest).
  by exists w', k, b, wk.
Defined.

(** ** The two upload helpers and [main] *)

Section Uploads.
Context {sv : services}.
Implicit Types w : world sv.
Variables client_id seller_token : string.



Lemma push_stocks_log {B} (stocks : list StockUpdate.t) (n : Z) (rest : M sv B) w w' r :
  (1 ≤ n)%Z →
  (lift (divide stocks n) ≫= fun batches =>
     for_each batches (fun some_stock => update_stocks some_stock client_id seller_token)
     ≫= fun _ => rest) w = Some (w', r) →
  ∃ w1 sb,
    heap w1 = heap w ∧
    sent w1 = sent w ++ map (fun b => ImportStocks b client_id seller_token) sb ∧
    ((∃ e, r = Raise e ∧ w' = w1) ∨ rest w1 = Some (w', r)).
Proof.
  intros Hn H.
  destruct (divide_positive stocks n Hn) as (batches & Hdiv & _).
  rewrite Hdiv in H. unfold lift in H.
  rewrite (bind_ok _ _ w w batches eq_refl) in H.
  apply bind_inv in H as [(w1 & [] & Hpush & H)|(e & Hpush & ->)];
    destruct (for_each_update_stocks_log _ _ _ _ _ _ Hpush) as (Hh & k & Hs & _);
    eauto 10.
Qed.

Lemma push_prices_log {B} (prices : list PriceUpdate.t) (n : Z) (rest : M sv B) w w' r :
  (1 ≤ n)%Z →
  (lift (divide prices n) ≫= fun batches =>
     for_each batches (fun some_price => update_price some_price client_id seller_token)
     ≫= fun _ => rest) w = Some (w', r) →
  ∃ w1 pb,
    heap w1 = heap w ∧
    sent w1 = sent w ++ map (fun b => ImportPrices b client_id seller_token) pb ∧
    ((∃ e, r = Raise e ∧ w' = w1) ∨ rest w1 = Some (w', r)).
Proof.
  intros Hn H.
  destruct (divide_positive prices n Hn) as (batches & Hdiv & _).
  rewrite Hdiv in H. unfold lift in H.
  rewrite (bind_ok _ _ w w batches eq_refl) in H.
  apply bind_inv in H as [(w1 & [] & Hpush & H)|(e & Hpush & ->)];
    destruct (for_each_update_price_log _ _ _ _ _ _ Hpush) as (Hh & k & Hs & _);
    eauto 10.
Qed.

End Uploads.

(** X20. [upload_prices] prices every row whose code the marketplace lists.
    When it returns, its result is the price entry of each row whose code is
    in the offer ids just fetched, in the order of the rows, and the fetched
    list is left as it was fetched. *)
Theorem upload_prices_from_fetched_ids {sv} (steps : nat) (watch_remnants : list watch)
    (client_id seller_token : string) (w w' : world sv) (prices : list PriceUpdate.t) :
  upload_prices steps watch_remnants client_id seller_token w = Some (w', Ok prices) →
  ∃ w1 offer_ids O,
    get_offer_ids steps client_id seller_token w = Some (w1, Ok offer_ids) ∧
    heap w1 !! offer_ids = Some O ∧
    heap w' !! offer_ids = Some O ∧
    prices = map price_of (filter (fun watch => py_str (kod watch) ∈ O) watch_remnants).
Proof.
  unfold upload_prices. intros H.
  apply bind_inv in H as [(w1 & l & Hids & H)|(e & _ & ?)]; [|done].
  destruct (get_offer_ids_frame _ _ _ _ _ _ Hids) as [_ Hl].
  destruct (Hl l eq_refl) as [O HO].
  apply bind_inv in H as [(w2 & prices0 & Hcp & H)|(e & _ & ?)]; [|done].
  rewrite create_prices_run in Hcp. injection Hcp as <- <-.
  apply push_prices_log in H as (w3 & pb & Hh3 & _ & H); [|lia].
  destruct H as [(e & ? & _)|H]; [done|]. injection H as <- <-.
  exists w1, l, O. rewrite Hh3, (lookup_total_correct _ _ _ HO). done.
Qed.

Lemma upload_prices_from_fetched_ids_witness :
  ∃ w' prices w1 offer_ids O,
    upload_prices 5 [row "B" "3" "70.50"; row "Z" "1" "9.00"; row "A" ">10" "1'234.00 x"]
      "id" "token" two_offers = Some (w', Ok prices) ∧
    get_offer_ids 5 "id" "token" two_offers = Some (w1, Ok offer_ids) ∧
    heap w1 !! offer_ids = Some O ∧
    heap w' !! offer_ids = Some O ∧
    prices = map price_of
               (filter (fun watch => py_str (kod watch) ∈ O)
                  [row "B" "3" "70.50"; row "Z" "1" "9.00"; row "A" ">10" "1'234.00 x"]).
Proof.
  destruct (upload_prices 5
              [row "B" "3" "70.50"; row "Z" "1" "9.00"; row "A" ">10" "1'234.00 x"]
              "id" "token" two_offers) as [[w' [prices|e]]|] eqn:H;
    try (vm_compute in H; discriminate).
  destruct (upload_prices_from_fetched_ids _ _ _ _ _ _ _ H) as (w1 & l & O & Hrest).
  by exists w', prices, w1, l, O.
Defined.

(** X21. [upload_stocks] answers for every fetched offer id.  When it returns
    the pair (not_empty, stocks), the offer ids of [stocks] are a
    rearrangement of the ids just fetched, and [not_empty] is [stocks]
    without the entries of stock 0, in the same order. *)
Theorem upload_stocks_result {sv} (steps : nat) (watch_remnants : list watch)
    (client_id seller_token : string) (w w' : world sv)
    (not_empty stocks : list StockUpdate.t) :
  upload_stocks steps watch_remnants client_id seller_token w
  = Some (w', Ok (not_empty, stocks)) →
  ∃ w1 offer_ids O,
    get_offer_ids steps client_id seller_token w = Some (w1, Ok offer_ids) ∧
    heap w1 !! offer_ids = Some O ∧
    map StockUpdate.offer_id stocks ≡ₚ O ∧
    not_empty = filter (fun stock => StockUpdate.stock stock ≠ 0%Z) stocks.
Proof.
  unfold upload_stocks. intros H.
  apply bind_inv in H as [(w1 & l & Hids & H)|(e & _ & ?)]; [|done].
  destruct (get_offer_ids_frame _ _ _ _ _ _ Hids) as [_ Hl].
  destruct (Hl l eq_refl) as [O HO].
  apply bind_inv in H as [(w2 & stocks0 & Hcs & H)|(e & _ & ?)]; [|done].
  rewrite (create_stocks_run _ _ _ _ HO) in Hcs.
  destruct (stocks_pass watch_remnants O []) as [ids' [st|e]] eqn:Hpass; [|done].
  simpl in Hcs. injection Hcs as <- <-.
  apply push_stocks_log in H as (w3 & sb & _ & _ & H); [|lia].
  destruct H as [(e & ? & _)|H]; [done|]. injection H as <- <- <-.
  exists w1, l, O. split; [done|]. split; [done|]. split; [|done].
  destruct (stocks_pass_acc _ _ _ _ _ Hpass) as (new & -> & Hperm & _).
  simpl. rewrite map_app, map_map. simpl. by rewrite map_id.
Qed.

Lemma upload_stocks_result_witness :
  ∃ w' not_empty stocks w1 offer_ids O,
    upload_stocks 5 [row "B" "1" "70.50"; row "A" ">10" "1'234.00 x"]
      "id" "token" two_offers = Some (w', Ok (not_empty, stocks)) ∧
    get_offer_ids 5 "id" "token" two_offers = Some (w1, Ok offer_ids) ∧
    heap w1 !! offer_ids = Some O ∧
    map StockUpdate.offer_id stocks ≡ₚ O ∧
    not_empty = filter (fun stock => StockUpdate.stock stock ≠ 0%Z) stocks.
Proof.
  destruct (upload_stocks 5 [row "B" "1" "70.50"; row "A" ">10" "1'234.00 x"]
              "id" "token" two_offers) as [[w' [[not_empty stocks]|e]]|] eqn:H;
    try (vm_compute in H; discriminate).
  destruct (upload_stocks_result _ _ _ _ _ _ _ _ H) as (w1 & l & O & Hrest).
  by exists w', not_empty, stocks, w1, l, O.
Defined.


